(** * Gmail filters (Code.js): a shallow embedding and its properties

  The script classifies Gmail threads with four filters (mailing lists,
  GitHub, GitLab, Bugzilla).  Each filter extracts a label path from the
  raw content of every message with regular expressions, resolves the path
  to a label of the account (creating the missing ancestors), applies the
  labels to the thread and routes the thread to the inbox or the archive.

  Layout: JavaScript strings and their methods; the regular expressions
  of the script and a backtracking matcher for them; the Gmail account as
  an explicit store with an event trace and exceptions; the filters; then
  the lemmas. *)

From Stdlib Require Import Bool List Arith Lia Ascii String.
Import ListNotations.

Local Open Scope list_scope.
Local Open Scope string_scope.

(** ** JavaScript strings

  A string is a sequence of code units; the model keeps the code units
  below 256 ([ascii]), which covers the header lines the script reads.
  The two line separators U+2028 and U+2029 are outside that range. *)

Module JS.

(** Code units that [String.prototype.trim] removes (white space and line
    terminators): TAB, LF, VT, FF, CR, SP and NBSP. *)
Definition isWhiteSpace (c : ascii) : bool :=
  match nat_of_ascii c with
  | 9 | 10 | 11 | 12 | 13 | 32 | 160 => true
  | _ => false
  end.

(** Line terminators of the regular-expression grammar: LF and CR. *)
Definition isLineTerminator (c : ascii) : bool :=
  match nat_of_ascii c with
  | 10 | 13 => true
  | _ => false
  end.

Fixpoint dropWhile (p : ascii -> bool) (s : string) : string :=
  match s with
  | EmptyString => EmptyString
  | String c s' => if p c then dropWhile p s' else s
  end.

Fixpoint takeWhile (p : ascii -> bool) (s : string) : string :=
  match s with
  | EmptyString => EmptyString
  | String c s' => if p c then String c (takeWhile p s') else EmptyString
  end.

Definition trimStart (s : string) : string := dropWhile isWhiteSpace s.

Fixpoint trimEnd (s : string) : string :=
  match s with
  | EmptyString => EmptyString
  | String c s' =>
      match trimEnd s' with
      | EmptyString => if isWhiteSpace c then EmptyString else String c EmptyString
      | t => String c t
      end
  end.

(** [s.trim()] *)
Definition trim (s : string) : string := trimEnd (trimStart s).

Fixpoint mapChars (f : ascii -> ascii) (s : string) : string :=
  match s with
  | EmptyString => EmptyString
  | String c s' => String (f c) (mapChars f s')
  end.

Fixpoint forallChars (p : ascii -> bool) (s : string) : bool :=
  match s with
  | EmptyString => true
  | String c s' => p c && forallChars p s'
  end.

(** [s.replace(/c/g, d)] for a one-character pattern. *)
Definition replaceAll (c d : ascii) (s : string) : string :=
  mapChars (fun x => if Ascii.eqb x c then d else x) s.

(** [s.includes(key)] *)
Fixpoint includes (s key : string) : bool :=
  String.prefix key s ||
  match s with
  | EmptyString => false
  | String _ s' => includes s' key
  end.

(** [s.split(sep)] for a separator that is not empty: [skip] counts the
    code units of a separator occurrence still to be passed over. *)
Fixpoint splitFrom (sep : string) (skip : nat) (s : string) : list string :=
  match s with
  | EmptyString => [EmptyString]
  | String c s' =>
      match skip with
      | S n => splitFrom sep n s'
      | O =>
          if String.prefix sep s
          then EmptyString :: splitFrom sep (String.length sep - 1) s'
          else match splitFrom sep 0 s' with
               | seg :: rest => String c seg :: rest
               | [] => [String c EmptyString]
               end
      end
  end.

Fixpoint chars (s : string) : list string :=
  match s with
  | EmptyString => []
  | String c s' => String c EmptyString :: chars s'
  end.

(** [s.split(sep)]: an empty separator splits between all code units. *)
Definition split (sep s : string) : list string :=
  match sep with
  | EmptyString => chars s
  | _ => splitFrom sep 0 s
  end.

(** Truthiness of a string: every string but the empty one. *)
Definition truthy (s : string) : bool :=
  match s with
  | EmptyString => false
  | _ => true
  end.

(** Truthiness of [e?.[1]?.trim()] and the like: [undefined] is falsy. *)
Definition truthyOpt (o : option string) : bool :=
  match o with
  | Some s => truthy s
  | None => false
  end.

End JS.

(** ** Regular expressions

  The syntax covers what the patterns of the script use: literal
  characters, character classes (the dot included), the line anchor,
  sequences, the greedy [?] and the greedy [*].  Every [*] of the script
  stands on a single-character atom, so [RStar] takes a class.  The
  classes of the script hold no letter, hence the [i] flag only affects
  literal characters. *)

Module RegExp.

Definition charset := ascii -> bool.

Inductive regex : Type :=
| RChar (c : ascii)
| RSet (cs : charset)
| RBol
| RSeq (r1 r2 : regex)
| ROpt (r : regex)
| RStar (cs : charset)
| RGroup (n : nat) (r : regex).

Record flags : Type := { ignoreCase : bool; multiline : bool }.

Definition flags_mi : flags := {| ignoreCase := true; multiline := true |}.
Definition flags_none : flags := {| ignoreCase := false; multiline := false |}.

(** Canonicalize of the [i] flag on code units below 128: ASCII
    upper-casing.  A code unit from 128 on never folds onto an ASCII
    one, and every literal of the script is ASCII. *)
Definition canonicalize (c : ascii) : ascii :=
  let n := nat_of_ascii c in
  if Nat.leb 97 n && Nat.leb n 122 then ascii_of_nat (n - 32) else c.

Definition charMatches (f : flags) (pat x : ascii) : bool :=
  if ignoreCase f
  then Ascii.eqb (canonicalize x) (canonicalize pat)
  else Ascii.eqb x pat.

(** [^]: start of the input, and with the [m] flag also the position
    after a line terminator.  [prev] is the code unit before the current
    position. *)
Definition atLineStart (f : flags) (prev : option ascii) : bool :=
  match prev with
  | None => true
  | Some c => multiline f && JS.isLineTerminator c
  end.

(** The dot: any code unit but a line terminator. *)
Definition dot : charset := fun c => negb (JS.isLineTerminator c).
(** A negated class [[^...]]. *)
Definition noneOf (l : list ascii) : charset :=
  fun c => negb (existsb (Ascii.eqb c) l).
Definition oneOf (l : list ascii) : charset :=
  fun c => existsb (Ascii.eqb c) l.

(** Captures: the text of each group, [None] for a group that did not
    take part in the match ([undefined]). *)
Definition captures := list (option string).

Fixpoint setCapture (n : nat) (v : string) (cs : captures) : captures :=
  match n, cs with
  | O, _ :: t => Some v :: t
  | O, [] => [Some v]
  | S n', h :: t => h :: setCapture n' v t
  | S n', [] => None :: setCapture n' v []
  end.

(** The first [n] code units of [s]. *)
Fixpoint take (n : nat) (s : string) : string :=
  match n, s with
  | S n', String c s' => String c (take n' s')
  | _, _ => EmptyString
  end.

Section Matcher.
Variable f : flags.
Variable R : Type.

(** A continuation receives the code unit before the position
    reached, the rest of the input and the captures so far. *)
Definition cont := option ascii -> string -> captures -> option R.

(** Greedy [cs*]: the longest run first, then shorter ones. *)
Fixpoint matchStar (cs : charset) (prev : option ascii) (s : string)
         (caps : captures) (k : cont) : option R :=
  match s with
  | String c s' =>
      if cs c
      then match matchStar cs (Some c) s' caps k with
           | Some r => Some r
           | None => k prev s caps
           end
      else k prev s caps
  | EmptyString => k prev s caps
  end.

(** Backtracking matcher, in the order of the ECMAScript semantics. *)
Fixpoint matchAt (r : regex) (prev : option ascii) (s : string)
         (caps : captures) (k : cont) : option R :=
  match r with
  | RChar p =>
      match s with
      | String c s' => if charMatches f p c then k (Some c) s' caps else None
      | EmptyString => None
      end
  | RSet cs =>
      match s with
      | String c s' => if cs c then k (Some c) s' caps else None
      | EmptyString => None
      end
  | RBol => if atLineStart f prev then k prev s caps else None
  | RSeq r1 r2 =>
      matchAt r1 prev s caps (fun prev' s' caps' => matchAt r2 prev' s' caps' k)
  | ROpt r1 =>
      match matchAt r1 prev s caps k with
      | Some x => Some x
      | None => k prev s caps
      end
  | RStar cs => matchStar cs prev s caps k
  | RGroup n r1 =>
      matchAt r1 prev s caps
        (fun prev' s' caps' =>
           k prev' s'
             (setCapture n (take (String.length s - String.length s') s) caps'))
  end.
End Matcher.

(** Number of capturing groups (they are numbered from 1). *)
Fixpoint groups (r : regex) : nat :=
  match r with
  | RSeq r1 r2 => Nat.max (groups r1) (groups r2)
  | ROpt r1 => groups r1
  | RGroup n r1 => Nat.max n (groups r1)
  | _ => 0
  end.

(** Match at the current position: the match array, element 0 being the
    whole match. *)
Definition matchHere (f : flags) (r : regex) (prev : option ascii) (s : string)
  : option captures :=
  matchAt f captures (RGroup 0 r) prev s (repeat None (S (groups r)))
          (fun _ _ caps => Some caps).

(** Leftmost match: every start position in turn, the end of the input
    included. *)
Fixpoint searchFrom (f : flags) (r : regex) (prev : option ascii) (s : string)
  : option captures :=
  match matchHere f r prev s with
  | Some m => Some m
  | None =>
      match s with
      | String c s' => searchFrom f r (Some c) s'
      | EmptyString => None
      end
  end.

(** A pattern of the script: the text of its literal, kept for reference,
    the syntax tree of that text and its flags. *)
Record RegExp : Type := { literal : string; source : regex; reFlags : flags }.

(** [s.match(re)] for a pattern without the [g] flag: [None] is [null]. *)
Definition exec (re : RegExp) (s : string) : option captures :=
  searchFrom (reFlags re) (source re) None s.

(** [m?.[i]]: [undefined] when there is no match or the group did not
    take part. *)
Definition group (i : nat) (m : option captures) : option string :=
  match m with
  | Some caps => nth i caps None
  | None => None
  end.

(** The pattern that matches the empty string. *)
Definition REmpty : regex := RStar (fun _ => false).

(** A literal text, character by character. *)
Fixpoint str (s : string) : regex :=
  match s with
  | EmptyString => REmpty
  | String c s' =>
      match s' with
      | EmptyString => RChar c
      | _ => RSeq (RChar c) (str s')
      end
  end.

(** The terms of a pattern, left to right. *)
Fixpoint seq (l : list regex) : regex :=
  match l with
  | [] => REmpty
  | r :: l' =>
      match l' with
      | [] => r
      | _ => RSeq r (seq l')
      end
  end.

(** Array.prototype.toString of a match array inside a template
    literal: elements joined by commas, [undefined] printed empty, and
    [null] for no match. *)
Definition matchToString (m : option captures) : string :=
  match m with
  | None => "null"
  | Some caps =>
      String.concat ","
        (map (fun o => match o with Some s => s | None => EmptyString end) caps)
  end.

(** The code unit before the position reached after [s], from [prev]. *)
Fixpoint lastOf (prev : option ascii) (s : string) : option ascii :=
  match s with
  | EmptyString => prev
  | String c s' => lastOf (Some c) s'
  end.

(** What a pattern matches, told without the search: [Matches f r prev s
    c0 c1] when [r] matches exactly the text [s] that stands after the
    code unit [prev], taking the captures from [c0] to [c1].  The matcher
    is compared with it below. *)
Inductive Matches (f : flags)
  : regex -> option ascii -> string -> captures -> captures -> Prop :=
| MChar p c prev caps :
    charMatches f p c = true ->
    Matches f (RChar p) prev (String c EmptyString) caps caps
| MSet cs c prev caps :
    cs c = true ->
    Matches f (RSet cs) prev (String c EmptyString) caps caps
| MBol prev caps :
    atLineStart f prev = true ->
    Matches f RBol prev EmptyString caps caps
| MSeq r1 r2 prev s1 s2 c0 c1 c2 :
    Matches f r1 prev s1 c0 c1 ->
    Matches f r2 (lastOf prev s1) s2 c1 c2 ->
    Matches f (RSeq r1 r2) prev (s1 ++ s2) c0 c2
| MOptNone r prev caps :
    Matches f (ROpt r) prev EmptyString caps caps
| MOptSome r prev s c0 c1 :
    Matches f r prev s c0 c1 ->
    Matches f (ROpt r) prev s c0 c1
| MStar cs prev s caps :
    JS.forallChars cs s = true ->
    Matches f (RStar cs) prev s caps caps
| MGroup n r prev s c0 c1 :
    Matches f r prev s c0 c1 ->
    Matches f (RGroup n r) prev s c0 (setCapture n s c1).

(** The text [rest] does not go on with a code unit of the class. *)
Definition stopsAt (cs : charset) (rest : string) : Prop :=
  match rest with
  | EmptyString => True
  | String c _ => cs c = false
  end.

(** Two texts of the same length whose code units agree under the flags. *)
Fixpoint sameText (f : flags) (pat s : string) : bool :=
  match pat, s with
  | EmptyString, EmptyString => true
  | String p pat', String c s' => charMatches f p c && sameText f pat' s'
  | _, _ => false
  end.

End RegExp.

(** ** The Gmail account, events and exceptions *)

Module Gmail.

Record GmailMessage : Type := {
  getRawContent : string;
  getSubject : string;
  getDate : string;
  getFrom : string
}.

Record GmailThread : Type := {
  getId : string;
  getFirstMessageSubject : string;
  getMessages : list GmailMessage
}.

(** A user label is identified by its full name. *)
Record GmailLabel : Type := { getName : string }.

Inductive level : Type := LogInfo | LogWarn | LogError.

(** What a run does to the outside: console output, label creation and
    the operations on threads, each with the id of its thread.  Console
    output and the operations on threads do not fail in this model; label
    creation can. *)
Inductive Event : Type :=
| Console (lvl : level) (args : list string)
| CreateLabel (name : string)
| AddLabel (threadId : string) (label : string)
| MarkImportant (threadId : string)
| MarkUnimportant (threadId : string)
| MoveToInbox (threadId : string)
| MoveToArchive (threadId : string).

(** A thrown [Error], by its message. *)
Definition exn := string.

(** The account: the names of its user labels in creation order, what
    [GmailApp.search] returns, and the error with which
    [GmailApp.createLabel] refuses a name (if it does) given the labels
    that exist. *)
Record Account : Type := {
  userLabels : list string;
  search : string -> nat -> nat -> list GmailThread;
  createLabelError : list string -> string -> option exn
}.

Definition withLabels (a : Account) (l : list string) : Account :=
  {| userLabels := l; search := search a; createLabelError := createLabelError a |}.

Inductive result (A : Type) : Type :=
| Ok (a : A)
| Threw (e : exn).
Arguments Ok {A} a.
Arguments Threw {A} e.

(** A computation runs on an account and gives a value or an exception,
    the account afterwards and the events it caused, oldest first. *)
Definition M (A : Type) : Type := Account -> result A * Account * list Event.

Definition ret {A} (a : A) : M A := fun acct => (Ok a, acct, []).

Definition bind {A B} (m : M A) (k : A -> M B) : M B :=
  fun acct =>
    match m acct with
    | (Ok a, acct1, ev1) =>
        match k a acct1 with
        | (r, acct2, ev2) => (r, acct2, (ev1 ++ ev2)%list)
        end
    | (Threw e, acct1, ev1) => (Threw e, acct1, ev1)
    end.

Definition throw {A} (e : exn) : M A := fun acct => (Threw e, acct, []).

Definition emit (e : Event) : M unit := fun acct => (Ok tt, acct, [e]).

(** [try { m } catch (e) { h e }] *)
Definition tryCatch {A} (m : M A) (h : exn -> M A) : M A :=
  fun acct =>
    match m acct with
    | (Ok a, acct1, ev1) => (Ok a, acct1, ev1)
    | (Threw e, acct1, ev1) =>
        match h e acct1 with
        | (r, acct2, ev2) => (r, acct2, (ev1 ++ ev2)%list)
        end
    end.

Declare Scope gmail_scope.
Delimit Scope gmail_scope with gmail.
Notation "x <- m ;; k" := (bind m (fun x => k))
  (at level 61, m at next level, right associativity) : gmail_scope.
Notation "m ;; k" := (bind m (fun _ => k))
  (at level 61, right associativity) : gmail_scope.
Local Open Scope gmail_scope.

(** [array.map(f)], the callback running on each element in order. *)
Fixpoint mapM {A B} (f : A -> M B) (l : list A) : M (list B) :=
  match l with
  | [] => ret []
  | x :: t => y <- f x ;; ys <- mapM f t ;; ret (y :: ys)
  end.

(** [array.reduce(f, init)] *)
Fixpoint reduceM {A B} (f : B -> A -> M B) (l : list A) (acc : B) : M B :=
  match l with
  | [] => ret acc
  | x :: t => acc' <- f acc x ;; reduceM f t acc'
  end.

Definition console_info (msg : string) : M unit := emit (Console LogInfo [msg]).
Definition console_warn (msg : string) : M unit := emit (Console LogWarn [msg]).
Definition console_error (msg : string) : M unit := emit (Console LogError [msg]).

(** [GmailApp.getUserLabelByName(name)]: [None] is [null]. *)
Definition getUserLabelByName (name : string) : M (option GmailLabel) :=
  fun acct =>
    (Ok (if existsb (String.eqb name) (userLabels acct)
         then Some {| getName := name |} else None),
     acct, []).

(** [GmailApp.createLabel(name)] *)
Definition createLabel (name : string) : M GmailLabel :=
  fun acct =>
    match createLabelError acct (userLabels acct) name with
    | Some e => (Threw e, acct, [])
    | None =>
        (Ok {| getName := name |},
         withLabels acct (userLabels acct ++ [name])%list,
         [CreateLabel name])
    end.

(** [GmailApp.search(query, start, max)] *)
Definition GmailApp_search (query : string) (start max : nat) : M (list GmailThread) :=
  fun acct => (Ok (search acct query start max), acct, []).

(** The double quote, for the messages that quote a name. *)
Definition dq : string := String "034"%char EmptyString.
Definition quoted (s : string) : string := dq ++ s ++ dq.

End Gmail.

(** ** AbstractGMailFilter *)

Module AbstractGMailFilter.
Import Gmail.
Local Open Scope gmail_scope.

(** The two methods a subclass overrides, with the constructor's fields. *)
Record Filter : Type := {
  searchQuery : string;
  searchMax : nat;
  findLabels : GmailThread -> M (list (option GmailLabel));
  isImportantMessage : GmailMessage -> bool
}.

(** The base class: [findLabels] throws, no message is important. *)
Definition base (query : string) (max : nat) : Filter :=
  {| searchQuery := query;
     searchMax := max;
     findLabels := fun _ => throw "You have to implement the method findLabels!";
     isImportantMessage := fun _ => false |}.

(** [array.findIndex(p)]: [None] stands for -1. *)
Fixpoint findIndexFrom {A} (p : A -> bool) (i : nat) (l : list A) : option nat :=
  match l with
  | [] => None
  | x :: t => if p x then Some i else findIndexFrom p (S i) t
  end.
Definition findIndex {A} (p : A -> bool) (l : list A) : option nat :=
  findIndexFrom p 0 l.

Definition sameName (current : GmailLabel) (label : option GmailLabel) : bool :=
  match label with
  | Some l => String.eqb (getName l) (getName current)
  | None => false
  end.

(** The [filter] of [_uniqLabels] from position [index] of [self] on:
    an entry is kept when it is not null and the first entry of [self]
    with its name stands at its own index. *)
Fixpoint uniqFrom (self : list (option GmailLabel)) (index : nat)
         (l : list (option GmailLabel)) : list GmailLabel :=
  match l with
  | [] => []
  | None :: rest => uniqFrom self (S index) rest
  | Some current :: rest =>
      match findIndex (sameName current) self with
      | Some i =>
          if Nat.eqb i index
          then current :: uniqFrom self (S index) rest
          else uniqFrom self (S index) rest
      | None => uniqFrom self (S index) rest
      end
  end.

Definition _uniqLabels (labels : list (option GmailLabel)) : list GmailLabel :=
  uniqFrom labels 0 labels.

(** "labelStr.replace(/\(|\)/g, _)": each parenthesis becomes an underscore. *)
Definition sanitize (labelStr : string) : string :=
  JS.mapChars
    (fun c => if Ascii.eqb c "("%char || Ascii.eqb c ")"%char then "_"%char else c)
    labelStr.

Definition _getOrCreateLabel (labelStr : string) : M GmailLabel :=
  let sanitizedLabelStr := sanitize labelStr in
  label <- getUserLabelByName sanitizedLabelStr ;;
  match label with
  | Some l => ret l
  | None =>
      tryCatch (createLabel sanitizedLabelStr)
        (fun e =>
           emit (Console LogError
                   ["Error while creating label " ++ quoted sanitizedLabelStr; e]) ;;
           throw e)
  end.

(** The callback of the [reduce] in [_getOrCreateLabelHierarchy]. *)
Definition hierarchyStep (currentLabel : option GmailLabel) (label : string)
  : M (option GmailLabel) :=
  match currentLabel with
  | Some cl =>
      l <- _getOrCreateLabel (getName cl ++ "/" ++ label) ;; ret (Some l)
  | None =>
      l <- _getOrCreateLabel label ;; ret (Some l)
  end.

(** The result is [None] ([null]) only when the split gives no segment. *)
Definition _getOrCreateLabelHierarchy (labelName : string) (separator : string)
  : M (option GmailLabel) :=
  let labels := JS.split separator labelName in
  reduceM hierarchyStep labels None.

(** The call with the default separator. *)
Definition hierarchy (labelName : string) : M (option GmailLabel) :=
  _getOrCreateLabelHierarchy labelName "/".

Definition threadRef (thread : GmailThread) : string :=
  quoted (getFirstMessageSubject thread) ++ " (id=" ++ quoted (getId thread) ++ ")".

(** The callback that [run] maps over the threads found. *)
Definition processThread (F : Filter) (thread : GmailThread) : M unit :=
  found <- findLabels F thread ;;
  let labels := _uniqLabels found in
  if Nat.eqb (List.length labels) 0
  then console_error ("No labels found for thread " ++ threadRef thread)
  else
    mapM (fun label =>
            emit (AddLabel (getId thread) (getName label)) ;;
            console_info ("Label " ++ quoted (getName label)
                            ++ " has been added to thread " ++ threadRef thread))
         labels ;;
    if existsb (isImportantMessage F) (getMessages thread)
    then
      console_info ("Important thread " ++ threadRef thread) ;;
      emit (MarkImportant (getId thread)) ;;
      emit (MoveToInbox (getId thread))
    else
      emit (MarkUnimportant (getId thread)) ;;
      emit (MoveToArchive (getId thread)).

(** [run] on the threads the search returned. *)
Definition runOn (F : Filter) (threads : list GmailThread) : M unit :=
  mapM (processThread F) threads ;; ret tt.

Definition run (F : Filter) : M unit :=
  threads <- GmailApp_search (searchQuery F) 0 (searchMax F) ;;
  runOn F threads.

End AbstractGMailFilter.

(** ** MailmanFilter *)

Module MailmanFilter.
Import Gmail RegExp AbstractGMailFilter.
Local Open Scope gmail_scope.

Definition query : string :=
  "from:*@eclipse.org" ++
  " AND NOT from:gitlab@gitlab.eclipse.org" ++
  " AND NOT from:gerrit@eclipse.org" ++
  " AND NOT from:gerrit@foundation.eclipse.org" ++
  " AND NOT from:hudson@eclipse.org" ++
  " AND NOT from:webmaster@eclipse.org" ++
  " AND NOT from:sabot@*" ++
  " AND NOT in:Sent" ++
  " AND after:2019/01/01 " ++
  " AND has:nouserlabels".

Definition reListId : RegExp :=
  {| literal := "/^List-ID: [^<]*<([^>]*)\.eclipse\.org>/mi";
     source := seq [RBol; str "List-ID: "; RStar (noneOf ["<"%char]); RChar "<";
                    RGroup 1 (RStar (noneOf [">"%char])); str ".eclipse.org>"];
     reFlags := flags_mi |}.

Definition reHubspot : RegExp :=
  {| literal := "/^X-Report-Abuse-To:(.*hubspot.*)/mi";
     source := seq [RBol; str "X-Report-Abuse-To:";
                    RGroup 1 (seq [RStar dot; str "hubspot"; RStar dot])];
     reFlags := flags_mi |}.

Definition reMailChimp : RegExp :=
  {| literal := "/^X-Mailer: *(.*mailchimp.*)/mi";
     source := seq [RBol; str "X-Mailer:"; RStar (oneOf [" "%char]);
                    RGroup 1 (seq [RStar dot; str "mailchimp"; RStar dot])];
     reFlags := flags_mi |}.

Definition reJenkins : RegExp :=
  {| literal := "/^X-Jenkins-Result: *(.*)/mi";
     source := seq [RBol; str "X-Jenkins-Result:"; RStar (oneOf [" "%char]);
                    RGroup 1 (RStar dot)];
     reFlags := flags_mi |}.

(** The dot of [google.com] is not escaped in the literal: it stands for
    any code unit of the line. *)
Definition reGCal : RegExp :=
  {| literal := "/^Sender:[^<]*<(calendar-notification@google.com)>.*/mi";
     source := seq [RBol; str "Sender:"; RStar (noneOf ["<"%char]); RChar "<";
                    RGroup 1 (seq [str "calendar-notification@google"; RSet dot; str "com"]);
                    RChar ">"; RStar dot];
     reFlags := flags_mi |}.

Definition reFrom : RegExp :=
  {| literal := "/^From: *[^<]*<([^@]*)@eclipse(-foundation)?\.org>/mi";
     source := seq [RBol; str "From:"; RStar (oneOf [" "%char]);
                    RStar (noneOf ["<"%char]); RChar "<";
                    RGroup 1 (RStar (noneOf ["@"%char])); str "@eclipse";
                    ROpt (RGroup 2 (str "-foundation")); str ".org>"];
     reFlags := flags_mi |}.

Definition root : string := "Eclipse Lists".

(** The callback of [findLabels], for one message. *)
Definition findLabel (m : GmailMessage) : M (option GmailLabel) :=
  let rawContent := getRawContent m in
  let listId := option_map JS.trim (group 1 (exec reListId rawContent)) in
  match listId with
  | Some (String _ _ as listId) => hierarchy (root ++ "/" ++ listId)
  | _ =>
      let isHubspot := group 1 (exec reHubspot rawContent) in
      let isMailChimp := group 1 (exec reMailChimp rawContent) in
      let isJenkins := group 1 (exec reJenkins rawContent) in
      let isGCal := group 1 (exec reGCal rawContent) in
      if negb (JS.truthyOpt isHubspot) && negb (JS.truthyOpt isMailChimp)
         && negb (JS.truthyOpt isJenkins) && negb (JS.truthyOpt isGCal)
      then
        console_warn ("Message not from HubSpot, nor MailChimp, nor Jenkins, not Google Calendar "
                        ++ quoted (getSubject m) ++ " on " ++ getDate m
                        ++ " from " ++ getFrom m) ;;
        ret None
      else
        let fromName := option_map JS.trim (group 1 (exec reFrom rawContent)) in
        match fromName with
        | Some (String _ _ as fromName) =>
            hierarchy (root ++ "/HubSpot Lists/" ++ fromName)
        | _ =>
            console_warn ("Uknown sender of message " ++ quoted (getSubject m)
                            ++ " on " ++ getDate m) ;;
            ret None
        end
  end.

Definition findLabels (thread : GmailThread) : M (list (option GmailLabel)) :=
  mapM findLabel (getMessages thread).

Definition filter (searchMax : nat) : Filter :=
  Build_Filter query searchMax findLabels (isImportantMessage (base query searchMax)).

End MailmanFilter.

(** ** GitHubFilter *)

Module GitHubFilter.
Import Gmail RegExp AbstractGMailFilter.
Local Open Scope gmail_scope.

Definition query : string := "from:notifications@github.com AND has:nouserlabels".

Definition reReason : RegExp :=
  {| literal := "/^X-GitHub-Reason: (.*)/mi";
     source := seq [RBol; str "X-GitHub-Reason: "; RGroup 1 (RStar dot)];
     reFlags := flags_mi |}.

Definition reListId : RegExp :=
  {| literal := "/^List-ID: ([^<]*) <[^>]*>.*/mi";
     source := seq [RBol; str "List-ID: "; RGroup 1 (RStar (noneOf ["<"%char]));
                    str " <"; RStar (noneOf [">"%char]); RChar ">"; RStar dot];
     reFlags := flags_mi |}.

(** The next two are strings handed to [match], which makes patterns
    without flags of them. *)
Definition reOrg : RegExp :=
  {| literal := "([^/]*)/.*";
     source := seq [RGroup 1 (RStar (noneOf ["/"%char])); RChar "/"; RStar dot];
     reFlags := flags_none |}.

Definition reRepo : RegExp :=
  {| literal := "[^/]*/(.*)";
     source := seq [RStar (noneOf ["/"%char]); RChar "/"; RGroup 1 (RStar dot)];
     reFlags := flags_none |}.

Definition unimportantReasons : list string :=
  ["subscribed"; "team_mention"; "ci_activity"].

Definition isImportantMessage (m : GmailMessage) : bool :=
  let ghReason := option_map JS.trim (group 1 (exec reReason (getRawContent m))) in
  match ghReason with
  | Some (String _ _ as ghReason) =>
      negb (existsb (String.eqb ghReason) unimportantReasons)
  | _ => false
  end.

Definition root : string := "GitHub".

(** [part ? part.trim().replace(/_/g, ' ') : placeholder] *)
Definition segment (part : option string) (placeholder : string) : string :=
  match part with
  | Some (String _ _ as p) => JS.replaceAll "_" " " (JS.trim p)
  | _ => placeholder
  end.

(** The callback of [findLabels], for one message. *)
Definition findLabel (m : GmailMessage) : M (option GmailLabel) :=
  let rawContent := getRawContent m in
  match exec reListId rawContent with
  | Some (_ :: Some listId1 :: _) =>
      match exec reOrg listId1, exec reRepo listId1 with
      | Some (_ :: org1 :: _), Some (_ :: repo1 :: _) =>
          let org := segment org1 "unknown_org" in
          let repo := segment repo1 "unknown_repo" in
          hierarchy (root ++ "/" ++ org ++ "/" ++ repo)
      | _, _ =>
          console_error ("Something went wrong during matching of " ++ quoted listId1) ;;
          ret None
      end
  | Some (_ :: None :: _) =>
      throw "TypeError: Cannot read properties of undefined (reading 'match')"
  | _ =>
      console_warn ("Cannot find List-ID from message " ++ quoted (getSubject m)
                      ++ " on " ++ getDate m) ;;
      ret None
  end.

Definition findLabels (thread : GmailThread) : M (list (option GmailLabel)) :=
  mapM findLabel (getMessages thread).

Definition filter (searchMax : nat) : Filter :=
  Build_Filter query searchMax findLabels isImportantMessage.

End GitHubFilter.

(** ** GitLabFilter *)

Module GitLabFilter.
Import Gmail RegExp AbstractGMailFilter.
Local Open Scope gmail_scope.

Definition query : string := "from:gitlab@gitlab.eclipse.org AND has:nouserlabels".

Definition reProjectPath : RegExp :=
  {| literal := "/^X-GitLab-Project-Path: *(.*)/mi";
     source := seq [RBol; str "X-GitLab-Project-Path:"; RStar (oneOf [" "%char]);
                    RGroup 1 (RStar dot)];
     reFlags := flags_mi |}.

Definition rootLabel : string := "gitlab.eclipse.org".

(** The [reduce] over the path elements: an element is appended when its
    trimmed text is longer than one code unit. *)
Definition projectLabel (projectPath : list string) : string :=
  fold_left
    (fun acc pathElement =>
       if Nat.ltb 1 (String.length (JS.trim pathElement))
       then acc ++ "/" ++ JS.trim pathElement
       else acc)
    projectPath rootLabel.

(** The callback of [findLabels], for one message. *)
Definition findLabel (m : GmailMessage) : M (option GmailLabel) :=
  let rawContent := getRawContent m in
  let projectPath :=
    option_map (JS.split "/") (group 1 (exec reProjectPath rawContent)) in
  match projectPath with
  | Some projectPath => hierarchy (projectLabel projectPath)
  | None => hierarchy rootLabel
  end.

Definition findLabels (thread : GmailThread) : M (list (option GmailLabel)) :=
  mapM findLabel (getMessages thread).

Definition filter (searchMax : nat) : Filter :=
  Build_Filter query searchMax findLabels (isImportantMessage (base query searchMax)).

End GitLabFilter.

(** ** BugzillaFilter *)

Module BugzillaFilter.
Import Gmail RegExp AbstractGMailFilter.
Local Open Scope gmail_scope.

Definition query : string :=
  "(from:bugzilla-daemon@polarsys.org" ++
  " OR from:bugzilla-daemon@eclipse.org" ++
  " OR bugzilla-daemon@locationtech.org)" ++
  " AND has:nouserlabels".

Definition backslash : ascii := "\"%char.
Definition LF : ascii := "010"%char.

(** The tail that the three header patterns share.  In the literal each
    question mark of the wrapper is written after two backslashes: the
    pattern reads an optional backslash there, not a question mark. *)
Definition encodedValue : list regex :=
  [ROpt (RGroup 1 (seq [RChar "="; ROpt (RChar backslash); str "UTF-8";
                        ROpt (RChar backslash); RChar "Q"; ROpt (RChar backslash)]));
   RGroup 2 (RStar (noneOf ["?"%char; LF]));
   ROpt (RGroup 3 (seq [ROpt (RChar backslash); RChar "="]))].

Definition reReason : RegExp :=
  {| literal := "/^X-Bugzilla-Reason: (=\\?UTF-8\\?Q\\?)?([^?\n]*)(\\?=)?/mi";
     source := seq ([RBol; str "X-Bugzilla-Reason: "] ++ encodedValue)%list;
     reFlags := flags_mi |}.

Definition reURL : RegExp :=
  {| literal := "/^X-Bugzilla-URL: (.*)/mi";
     source := seq [RBol; str "X-Bugzilla-URL: "; RGroup 1 (RStar dot)];
     reFlags := flags_mi |}.

Definition reProduct : RegExp :=
  {| literal := "/^X-Bugzilla-Product: (=\\?UTF-8\\?Q\\?)?([^?\n]*)(\\?=)?/mi";
     source := seq ([RBol; str "X-Bugzilla-Product: "] ++ encodedValue)%list;
     reFlags := flags_mi |}.

Definition reComponent : RegExp :=
  {| literal := "/^X-Bugzilla-Component: (=\\?UTF-8\\?Q\\?)?([^?\n]*)(\\?=)?/mi";
     source := seq ([RBol; str "X-Bugzilla-Component: "] ++ encodedValue)%list;
     reFlags := flags_mi |}.

(** Group 2 takes part in every match of the three patterns; were it
    undefined, [bzReason[2].trim()] would throw. *)
Definition isImportantMessage (m : GmailMessage) : bool :=
  match exec reReason (getRawContent m) with
  | Some bzReason =>
      Nat.ltb 1 (List.length bzReason) &&
      match nth 2 bzReason None with
      | Some v => negb (String.eqb (JS.trim v) "None")
      | None => false
      end
  | None => false
  end.

Definition rootLabels : list (string * string) :=
  [("bugs.eclipse.org", "Eclipse Bugs");
   ("polarsys.org", "Polarsys Bugs");
   ("locationtech.org", "LocationTech Bugs");
   ("foundation=2Eeclipse=2Eorg", "Foundation Bugs");
   ("foundation.eclipse.org", "Foundation Bugs")].

Definition _getRootLabel (url : string) : string :=
  match find (fun kv => JS.includes url (fst kv)) rootLabels with
  | Some (_, label) => label
  | None => "Unknown Bugzilla"
  end.

(** [None] is [null]. *)
Definition _processMatch (match_ : option captures) : M (option string) :=
  match match_ with
  | Some caps =>
      if Nat.ltb 1 (List.length caps)
      then
        match nth 2 caps None with
        | Some v =>
            let result := JS.trim v in
            match nth 1 caps None with
            | Some _ => ret (Some (JS.replaceAll "_" " " result))
            | None => ret (Some result)
            end
        | None => throw "TypeError: Cannot read properties of undefined (reading 'trim')"
        end
      else ret None
  | None => ret None
  end.

(** The callback of [findLabels], for one message. *)
Definition findLabel (m : GmailMessage) : M (option GmailLabel) :=
  let rawContent := getRawContent m in
  match exec reURL rawContent with
  | None =>
      throw ("Bugzilla URL match failed for message " ++ quoted (getSubject m)
               ++ " on " ++ getDate m)
  | Some url =>
      let productMatch := exec reProduct rawContent in
      let componentMatch := exec reComponent rawContent in
      match nth 1 url None with
      | None => throw "TypeError: Cannot read properties of undefined (reading 'includes')"
      | Some url1 =>
          let root := _getRootLabel url1 in
          product <- _processMatch productMatch ;;
          component <- _processMatch componentMatch ;;
          match product, component with
          | Some (String _ _ as product), Some (String _ _ as component) =>
              hierarchy (root ++ "/" ++ product ++ "/" ++ component)
          | _, _ =>
              console_warn ("Something went wrong during matching of "
                              ++ quoted (matchToString productMatch) ++ " and "
                              ++ quoted (matchToString componentMatch)) ;;
              hierarchy root
          end
      end
  end.

Definition findLabels (thread : GmailThread) : M (list (option GmailLabel)) :=
  mapM findLabel (getMessages thread).

Definition filter (searchMax : nat) : Filter :=
  Build_Filter query searchMax findLabels isImportantMessage.

End BugzillaFilter.

(** ** main

    Every filter is created with the default [searchMax] of 16. *)

Module Main.
Import Gmail AbstractGMailFilter.
Local Open Scope gmail_scope.

Definition main : M unit :=
  run (GitHubFilter.filter 16) ;;
  run (GitLabFilter.filter 16) ;;
  run (BugzillaFilter.filter 16) ;;
  run (MailmanFilter.filter 16).

End Main.

(** ** Observations on event traces *)

Module Trace.
Import Gmail AbstractGMailFilter.

(** The events of [run] that change a thread. *)
Definition isThreadMutation (e : Event) : bool :=
  match e with
  | AddLabel _ _ | MarkImportant _ | MarkUnimportant _
  | MoveToInbox _ | MoveToArchive _ => true
  | Console _ _ | CreateLabel _ => false
  end.

Definition threadMutations (ev : list Event) : list Event :=
  List.filter isThreadMutation ev.

(** The names of the labels added to the thread [tid], in order. *)
Fixpoint addedLabels (tid : string) (ev : list Event) : list string :=
  match ev with
  | [] => []
  | AddLabel t name :: rest =>
      if String.eqb t tid then name :: addedLabels tid rest else addedLabels tid rest
  | _ :: rest => addedLabels tid rest
  end.

(** The marking and moving events, in order. *)
Definition isRouting (e : Event) : bool :=
  match e with
  | MarkImportant _ | MarkUnimportant _ | MoveToInbox _ | MoveToArchive _ => true
  | _ => false
  end.

Definition routing (ev : list Event) : list Event := List.filter isRouting ev.

Definition isCreation (e : Event) : bool :=
  match e with
  | CreateLabel _ => true
  | _ => false
  end.

(** The error that [run] logs for a thread without labels. *)
Definition noLabelsError (thread : GmailThread) : Event :=
  Console LogError ["No labels found for thread " ++ threadRef thread].

(** The events of the label loop of [run]. *)
Definition labelEvents (thread : GmailThread) (labels : list GmailLabel) : list Event :=
  flat_map
    (fun label =>
       [AddLabel (getId thread) (getName label);
        Console LogInfo ["Label " ++ quoted (getName label)
                           ++ " has been added to thread " ++ threadRef thread]])
    labels.

(** The events of the importance branch of [run]. *)
Definition routeEvents (F : Filter) (thread : GmailThread) : list Event :=
  if existsb (isImportantMessage F) (getMessages thread)
  then [Console LogInfo ["Important thread " ++ threadRef thread];
        MarkImportant (getId thread); MoveToInbox (getId thread)]
  else [MarkUnimportant (getId thread); MoveToArchive (getId thread)].

(** The names that the messages of a thread resolved to. *)
Fixpoint resolvedNames (found : list (option GmailLabel)) : list string :=
  match found with
  | [] => []
  | Some l :: rest => getName l :: resolvedNames rest
  | None :: rest => resolvedNames rest
  end.

(** Deduplication told forwards: a label is kept when its name was not
    [seen] before.  [_uniqLabels] is compared with it below. *)
Fixpoint uniqSeen (seen : list string) (l : list (option GmailLabel)) : list GmailLabel :=
  match l with
  | [] => []
  | None :: rest => uniqSeen seen rest
  | Some current :: rest =>
      if existsb (String.eqb (getName current)) seen
      then uniqSeen seen rest
      else current :: uniqSeen (getName current :: seen) rest
  end.

(** The account has a user label of that name. *)
Definition hasLabel (acct : Account) (name : string) : Prop :=
  existsb (String.eqb name) (userLabels acct) = true.

(** The events, the outcome and the account of a finished computation. *)
Definition events {A} (o : result A * Account * list Event) : list Event := snd o.
Definition outcome {A} (o : result A * Account * list Event) : result A := fst (fst o).
Definition account {A} (o : result A * Account * list Event) : Account := snd (fst o).

(** A computation that never changes a thread. *)
Definition quiet {A} (m : M A) : Prop :=
  forall acct, threadMutations (events (m acct)) = [].

End Trace.

(** ** Header lines, told without patterns *)

Module Headers.
Import RegExp.

(** The text that the From pattern of [MailmanFilter.findLabels] accepts.
    At the start of a line the raw content reads [From:] (in any case),
    then spaces, then a text [skipped] without an opening angle bracket,
    and in angle brackets [local@domain], where [local] has no at sign and
    [domain] reads eclipse.org or eclipse-foundation.org in any case.
    Neither [skipped] nor [local] is kept from holding a line end: the
    bracketed address may stand on a header line after the From line. *)
Definition fromPatternText (raw local : string) : Prop :=
  exists pre hdr spaces skipped domain post,
    raw = pre ++ hdr ++ spaces ++ skipped ++ "<" ++ local ++ "@" ++ domain ++ ">" ++ post /\
    atLineStart flags_mi (lastOf None pre) = true /\
    sameText flags_mi "From:" hdr = true /\
    JS.forallChars (oneOf [" "%char]) spaces = true /\
    JS.forallChars (noneOf ["<"%char]) skipped = true /\
    JS.forallChars (noneOf ["@"%char]) local = true /\
    (sameText flags_mi "eclipse.org" domain = true \/
     sameText flags_mi "eclipse-foundation.org" domain = true).

(** The raw content has a line that starts with the text [name], in any
    case. *)
Definition hasHeader (raw name : string) : Prop :=
  exists pre hdr post,
    raw = pre ++ hdr ++ post /\
    atLineStart flags_mi (lastOf None pre) = true /\
    sameText flags_mi name hdr = true.

(** The test of [MailmanFilter.findLabels] for a list id. *)
Definition hasListId (raw : string) : bool :=
  JS.truthyOpt (option_map JS.trim (group 1 (exec MailmanFilter.reListId raw))).

(** The four tests of [MailmanFilter.findLabels] for a bulk relay. *)
Definition isBulkRelay (raw : string) : bool :=
  JS.truthyOpt (group 1 (exec MailmanFilter.reHubspot raw))
  || JS.truthyOpt (group 1 (exec MailmanFilter.reMailChimp raw))
  || JS.truthyOpt (group 1 (exec MailmanFilter.reJenkins raw))
  || JS.truthyOpt (group 1 (exec MailmanFilter.reGCal raw)).

End Headers.

(** ** Header lines, read by a scan

    Four patterns of the script are a line anchor, a header name, in two
    of them a run of spaces, and a group that takes the rest of the line.
    They are compared below with this scan of the raw content: the first
    position at the start of a line where the name stands, in any case. *)

Module Lines.
Import RegExp.

(** The text [s] starts with [pat], code units compared under the flags. *)
Fixpoint prefixText (f : flags) (pat s : string) : bool :=
  match pat, s with
  | EmptyString, _ => true
  | String p pat', String c s' => charMatches f p c && prefixText f pat' s'
  | String _ _, EmptyString => false
  end.

(** [s] without its first [n] code units. *)
Fixpoint drop (n : nat) (s : string) : string :=
  match n, s with
  | S n', String _ s' => drop n' s'
  | _, _ => s
  end.

(** The rest of the input from the first line start where [name] stands,
    the name included; [prev] is the code unit before [s]. *)
Fixpoint findLine (f : flags) (name : string) (prev : option ascii) (s : string)
  : option string :=
  if atLineStart f prev && prefixText f name s
  then Some s
  else match s with
       | String c s' => findLine f name (Some c) s'
       | EmptyString => None
       end.

(** The match array of a header pattern on the line found: the name with
    the rest of the line, and the rest of the line. *)
Definition headerMatch (name line : string) : captures :=
  let n := String.length name in
  [Some (take n line ++ JS.takeWhile dot (drop n line));
   Some (JS.takeWhile dot (drop n line))].

(** The same for a pattern with a run of spaces after the name. *)
Definition headerMatchSkippingSpaces (name line : string) : captures :=
  let n := String.length name in
  let spaces := JS.takeWhile (oneOf [" "%char]) (drop n line) in
  let value := JS.takeWhile dot (JS.dropWhile (oneOf [" "%char]) (drop n line)) in
  [Some (take n line ++ spaces ++ value); Some value].

(** The value of the first header line of that name: what follows the
    name up to the end of the line. *)
Definition headerValue (name raw : string) : option string :=
  option_map (fun line => JS.takeWhile dot (drop (String.length name) line))
             (findLine flags_mi name None raw).

(** The same after the spaces that follow the name. *)
Definition headerValueSkippingSpaces (name raw : string) : option string :=
  option_map
    (fun line =>
       JS.takeWhile dot
         (JS.dropWhile (oneOf [" "%char]) (drop (String.length name) line)))
    (findLine flags_mi name None raw).

(** [s] has [key] as a substring. *)
Definition substring (key s : string) : Prop :=
  exists pre post, s = pre ++ key ++ post.

(** [pre] is a prefix of [s]. *)
Definition startsWith (pre s : string) : Prop := exists rest, s = pre ++ rest.

(** The text that the List-ID pattern of [MailmanFilter.findLabels]
    accepts.  At the start of a line the raw content reads [List-ID: ] (in
    any case), then a text [skipped] without an opening angle bracket, and
    in angle brackets the text [id] followed by [.eclipse.org] (in any
    case), where [id] has no closing bracket.  Neither [skipped] nor [id]
    is kept from holding a line end: the bracketed text may stand on a
    header line after the List-ID line. *)
Definition listIdPatternText (raw id : string) : Prop :=
  exists pre hdr skipped domain post,
    raw = pre ++ hdr ++ skipped ++ "<" ++ id ++ domain ++ ">" ++ post /\
    atLineStart flags_mi (lastOf None pre) = true /\
    sameText flags_mi "List-ID: " hdr = true /\
    JS.forallChars (noneOf ["<"%char]) skipped = true /\
    JS.forallChars (noneOf [">"%char]) id = true /\
    sameText flags_mi ".eclipse.org" domain = true.

End Lines.

(** ** Observations on the labels of the account *)

Module Labels.
Import Gmail AbstractGMailFilter Trace.

(** The names of the labels created, in order. *)
Fixpoint createdNames (ev : list Event) : list string :=
  match ev with
  | [] => []
  | CreateLabel name :: rest => name :: createdNames rest
  | _ :: rest => createdNames rest
  end.

(** A name without parentheses. *)
Definition noParentheses (name : string) : Prop := sanitize name = name.

(** What a computation may do to the account: it leaves the search and the
    refusals of label creation alone, it only appends to the user labels
    the names of its [CreateLabel] events, in their order, it never makes
    a name occur twice, and no name it creates has a parenthesis. *)
Definition labelDiscipline {A} (m : M A) : Prop :=
  forall acct,
    search (account (m acct)) = search acct /\
    createLabelError (account (m acct)) = createLabelError acct /\
    userLabels (account (m acct)) =
      (userLabels acct ++ createdNames (events (m acct)))%list /\
    (NoDup (userLabels acct) -> NoDup (userLabels (account (m acct)))) /\
    Forall noParentheses (createdNames (events (m acct))).

(** An account that refuses no label. *)
Definition accepting (acct : Account) : Prop :=
  forall labels name, createLabelError acct labels name = None.

(** The thread that an event changes. *)
Definition threadOf (e : Event) : option string :=
  match e with
  | AddLabel t _ | MarkImportant t | MarkUnimportant t
  | MoveToInbox t | MoveToArchive t => Some t
  | Console _ _ | CreateLabel _ => None
  end.

(** Marking as important or moving to the inbox. *)
Definition promotes (e : Event) : bool :=
  match e with
  | MarkImportant _ | MoveToInbox _ => true
  | _ => false
  end.

(** The filters that [main] runs, with any [searchMax]. *)
Definition scriptFilters (n : nat) : list Filter :=
  [GitHubFilter.filter n; GitLabFilter.filter n;
   BugzillaFilter.filter n; MailmanFilter.filter n].

(** A computation that returns on every account that refuses no label. *)
Definition neverThrows {A} (m : M A) : Prop :=
  forall acct, accepting acct ->
    (exists a, outcome (m acct) = Ok a) /\ accepting (account (m acct)).

End Labels.

(** ** Sample messages, threads and accounts *)

Module Samples.
Import Gmail AbstractGMailFilter.

Definition nl : string := String "010"%char EmptyString.

Definition message (subject raw : string) : GmailMessage :=
  {| getRawContent := raw; getSubject := subject;
     getDate := "Mon Nov 02 2026"; getFrom := "sender@example.org" |}.

Definition thread (id : string) (msgs : list GmailMessage) : GmailThread :=
  {| getId := id;
     getFirstMessageSubject :=
       match msgs with m :: _ => getSubject m | [] => EmptyString end;
     getMessages := msgs |}.

(** An account without labels in which every label can be created and the
    search returns [found]. *)
Definition account (found : list GmailThread) : Account :=
  {| userLabels := []; search := fun _ _ _ => found;
     createLabelError := fun _ _ => None |}.

(** Bugzilla: a notification without the URL header, and a complete one. *)
Definition bugNoUrl : GmailMessage :=
  message "[Bug 1] no url"
    ("Subject: [Bug 1] no url" ++ nl ++
     "X-Bugzilla-Product: Platform" ++ nl ++
     "X-Bugzilla-Component: UI" ++ nl).

Definition bugComplete : GmailMessage :=
  message "[Bug 2] complete"
    ("Subject: [Bug 2] complete" ++ nl ++
     "X-Bugzilla-URL: https://bugs.eclipse.org/bugs/" ++ nl ++
     "X-Bugzilla-Product: Platform" ++ nl ++
     "X-Bugzilla-Component: UI" ++ nl).

Definition bugBatch : list GmailThread :=
  [thread "t1" [bugNoUrl]; thread "t2" [bugComplete]].

(** Bugzilla: the reason [None] inside the encoded-word wrapper. *)
Definition bugWrappedNone : GmailMessage :=
  message "[Bug 3] wrapped"
    ("X-Bugzilla-Reason: =?UTF-8?Q?None?=" ++ nl).

(** GitHub: the header of the labeling scenario as the specification gives
    it, and the header with the organisation and repository before the
    bracket. *)
Definition ghScenario : GmailMessage :=
  message "[my_org/my_repo] scenario"
    ("Subject: [my_org/my_repo] scenario" ++ nl ++
     "List-ID: my_repo.my_org <my_org/my_repo.github.com>" ++ nl ++
     "X-GitHub-Reason: subscribed" ++ nl).

Definition ghNotification : GmailMessage :=
  message "[my_org/my_repo] notification"
    ("Subject: [my_org/my_repo] notification" ++ nl ++
     "List-ID: my_org/my_repo <my_repo.my_org.github.com>" ++ nl ++
     "X-GitHub-Reason: subscribed" ++ nl).

(** GitHub: a mention without a List-ID header. *)
Definition ghMentionNoList : GmailMessage :=
  message "mention"
    ("Subject: mention" ++ nl ++ "X-GitHub-Reason: mention" ++ nl).

(** GitHub: an empty repository part, and an empty organisation part. *)
Definition ghEmptyRepo : GmailMessage :=
  message "empty repo" ("List-ID: org/ <repo.org.github.com>" ++ nl).
Definition ghEmptyOrg : GmailMessage :=
  message "empty org" ("List-ID: /repo <repo.org.github.com>" ++ nl).

(** GitLab: a project path with a one-letter segment. *)
Definition glShortSegment : GmailMessage :=
  message "short segment" ("X-GitLab-Project-Path: eclipse/x/proj" ++ nl).

(** Mailing lists: a MailChimp message from the foundation, and one from
    elsewhere. *)
Definition mcFoundation : GmailMessage :=
  message "newsletter"
    ("From: News <news@eclipse-foundation.org>" ++ nl ++
     "X-Mailer: MailChimp Mailer" ++ nl).
Definition mcElsewhere : GmailMessage :=
  message "newsletter"
    ("From: News <news@example.org>" ++ nl ++
     "X-Mailer: MailChimp Mailer" ++ nl).

End Samples.

(** More samples: an account that refuses one label, mailing-list
    messages, and a GitHub thread as the result of a search. *)

Module MoreSamples.
Import Gmail AbstractGMailFilter.


Definition listWithMarker : GmailMessage :=
  Samples.message "[platform-dev] news"
    ("From: News <news@eclipse.org>" ++ Samples.nl ++
     "List-ID: Platform dev <platform-dev.eclipse.org>" ++ Samples.nl ++
     "X-Mailer: MailChimp Mailer" ++ Samples.nl).

(** Mailing lists: a MailChimp message whose From header holds a bare
    address elsewhere and whose To header holds a foundation address in
    angle brackets. *)
Definition mcSenderElsewhere : GmailMessage :=
  Samples.message "offer"
    ("From: a@example.org" ++ Samples.nl ++
     "To: Dev <dev@eclipse.org>" ++ Samples.nl ++
     "X-Mailer: MailChimp Mailer" ++ Samples.nl).

(** Mailing lists: a List-ID header without angle brackets, followed by
    another header with a bracketed text. *)
Definition listIdUnbracketed : GmailMessage :=
  Samples.message "note"
    ("List-ID: foo" ++ Samples.nl ++
     "X-Other: <bar.eclipse.org>" ++ Samples.nl).

Definition ghThread : GmailThread := Samples.thread "t" [Samples.ghNotification].

Definition glThread : GmailThread := Samples.thread "g" [Samples.glShortSegment].

End MoreSamples.

(** * Properties *)

Import JS RegExp Gmail AbstractGMailFilter Trace Headers Lines Labels.
Local Open Scope gmail_scope.

(** ** The monad *)

Lemma bind_ok {A B} (m : M A) (k : A -> M B) acct a acct1 ev1 :
  m acct = (Ok a, acct1, ev1) ->
  bind m k acct =
    (outcome (k a acct1), account (k a acct1), (ev1 ++ events (k a acct1))%list).
Proof.
  intros H. unfold bind, outcome, account, events. rewrite H.
  destruct (k a acct1) as [[r a2] e2]. reflexivity.
Qed.

Lemma bind_threw {A B} (m : M A) (k : A -> M B) acct e acct1 ev1 :
  m acct = (Threw e, acct1, ev1) ->
  bind m k acct = (Threw e, acct1, ev1).
Proof. intros H. unfold bind. rewrite H. reflexivity. Qed.

Lemma outcome_eta {A} (o : result A * Account * list Event) :
  o = (outcome o, account o, events o).
Proof. destruct o as [[r a] e]. reflexivity. Qed.

(** ** The label loop and the importance branch of [run] *)

Lemma mapM_labels thread labels acct :
  mapM (fun label =>
          emit (AddLabel (getId thread) (getName label)) ;;
          console_info ("Label " ++ quoted (getName label)
                          ++ " has been added to thread " ++ threadRef thread))
       labels acct
  = (Ok (map (fun _ => tt) labels), acct, labelEvents thread labels).
Proof.
  induction labels as [|l ls IH]; [reflexivity|].
  cbn [mapM].
  erewrite bind_ok by reflexivity.
  rewrite (bind_ok _ _ _ _ _ _ IH).
  unfold ret, outcome, account, events; cbn [fst snd].
  rewrite app_nil_r. reflexivity.
Qed.

Lemma route_events F thread acct :
  (if existsb (isImportantMessage F) (getMessages thread)
   then
     console_info ("Important thread " ++ threadRef thread) ;;
     emit (MarkImportant (getId thread)) ;;
     emit (MoveToInbox (getId thread))
   else
     emit (MarkUnimportant (getId thread)) ;;
     emit (MoveToArchive (getId thread))) acct
  = (Ok tt, acct, routeEvents F thread).
Proof.
  unfold routeEvents. destruct (existsb _ _); reflexivity.
Qed.

(** What [run] does with one thread, by the outcome of [findLabels]. *)
Lemma processThread_threw F thread acct e acct1 ev1 :
  findLabels F thread acct = (Threw e, acct1, ev1) ->
  processThread F thread acct = (Threw e, acct1, ev1).
Proof. intros H. unfold processThread. apply bind_threw. exact H. Qed.

Lemma processThread_empty F thread acct found acct1 ev1 :
  findLabels F thread acct = (Ok found, acct1, ev1) ->
  _uniqLabels found = [] ->
  processThread F thread acct =
    (Ok tt, acct1, (ev1 ++ [noLabelsError thread])%list).
Proof.
  intros H E. unfold processThread. rewrite (bind_ok _ _ _ _ _ _ H).
  rewrite E. reflexivity.
Qed.

Lemma processThread_labelled F thread acct found acct1 ev1 :
  findLabels F thread acct = (Ok found, acct1, ev1) ->
  _uniqLabels found <> [] ->
  processThread F thread acct =
    (Ok tt, acct1,
     (ev1 ++ labelEvents thread (_uniqLabels found) ++ routeEvents F thread)%list).
Proof.
  intros H E. unfold processThread. rewrite (bind_ok _ _ _ _ _ _ H).
  destruct (_uniqLabels found) as [|l ls] eqn:U; [congruence|].
  cbn [List.length Nat.eqb].
  rewrite (bind_ok _ _ _ _ _ _ (mapM_labels thread (l :: ls) acct1)).
  rewrite route_events. reflexivity.
Qed.

(** ** Deduplication of labels *)

Section Uniq.

Lemma existsb_sameName current l :
  existsb (sameName current) l = existsb (String.eqb (getName current)) (resolvedNames l).
Proof.
  induction l as [|[x|] l IH]; cbn; [reflexivity| |exact IH].
  rewrite IH, String.eqb_sym. reflexivity.
Qed.

Lemma findIndexFrom_earlier {A} (p : A -> bool) pre post i :
  existsb p pre = true ->
  exists j, findIndexFrom p i (pre ++ post) = Some j /\ j < i + List.length pre.
Proof.
  revert i. induction pre as [|x pre IH]; intros i H; cbn in *; [discriminate|].
  destruct (p x).
  - exists i. split; [reflexivity|lia].
  - destruct (IH (S i) H) as (j & Hj & Hlt). exists j. split; [exact Hj|lia].
Qed.

Lemma findIndexFrom_here {A} (p : A -> bool) pre x post i :
  existsb p pre = false -> p x = true ->
  findIndexFrom p i (pre ++ x :: post) = Some (i + List.length pre).
Proof.
  revert i. induction pre as [|y pre IH]; intros i H Hx; cbn in *.
  - rewrite Hx. f_equal. lia.
  - destruct (p y); [discriminate|]. rewrite (IH (S i) H Hx). f_equal. lia.
Qed.

Lemma resolvedNames_app l1 l2 :
  resolvedNames (l1 ++ l2) = (resolvedNames l1 ++ resolvedNames l2)%list.
Proof.
  induction l1 as [|[x|] l1 IH]; cbn; [reflexivity| |exact IH].
  rewrite IH. reflexivity.
Qed.

Lemma existsb_perm_names (n : string) (s1 s2 : list string) :
  (forall x, In x s1 <-> In x s2) ->
  existsb (String.eqb n) s1 = existsb (String.eqb n) s2.
Proof.
  intros H. apply eq_true_iff_eq. rewrite !existsb_exists.
  split; intros (x & Hin & Hx); exists x; (split; [apply H; exact Hin|exact Hx]).
Qed.

Lemma uniqSeen_ext l : forall s1 s2,
  (forall x, In x s1 <-> In x s2) -> uniqSeen s1 l = uniqSeen s2 l.
Proof.
  induction l as [|[c|] l IH]; intros s1 s2 H; cbn; [reflexivity| |apply IH; exact H].
  rewrite (existsb_perm_names _ s1 s2 H).
  destruct (existsb _ s2); [apply IH; exact H|].
  f_equal. apply IH. intros x. cbn. rewrite (H x). tauto.
Qed.

(** The index test of [_uniqLabels] keeps the first label of each name. *)
Lemma uniqFrom_uniqSeen l : forall pre,
  uniqFrom (pre ++ l) (List.length pre) l = uniqSeen (resolvedNames pre) l.
Proof.
  induction l as [|[c|] l IH]; intros pre; cbn [uniqFrom uniqSeen].
  - reflexivity.
  - unfold findIndex.
    replace (pre ++ Some c :: l)%list with ((pre ++ [Some c]) ++ l)%list
      by (rewrite <- app_assoc; reflexivity).
    specialize (IH (pre ++ [Some c])%list).
    rewrite length_app in IH. cbn [List.length] in IH.
    replace (List.length pre + 1) with (S (List.length pre)) in IH by lia.
    rewrite IH, resolvedNames_app. cbn [resolvedNames].
    rewrite <- app_assoc. cbn [app].
    rewrite <- existsb_sameName.
    destruct (existsb (sameName c) pre) eqn:E.
    + destruct (findIndexFrom_earlier (sameName c) pre (Some c :: l) 0 E)
        as (j & Hj & Hlt).
      rewrite Hj. replace (Nat.eqb j (List.length pre)) with false
        by (symmetry; apply Nat.eqb_neq; lia).
      apply uniqSeen_ext. intros x. rewrite in_app_iff. cbn.
      split; [|tauto]. intros [H|[H|[]]]; [exact H|].
      rewrite existsb_sameName in E. apply existsb_exists in E.
      destruct E as (y & Hy & Heq). apply String.eqb_eq in Heq. congruence.
    + rewrite (findIndexFrom_here (sameName c) pre (Some c) l 0 E)
        by (cbn; apply String.eqb_refl).
      cbn [Nat.add]. rewrite Nat.eqb_refl. f_equal.
      apply uniqSeen_ext. intros x. rewrite in_app_iff. cbn. tauto.
  - replace (pre ++ None :: l)%list with ((pre ++ [None]) ++ l)%list
      by (rewrite <- app_assoc; reflexivity).
    specialize (IH (pre ++ [None])%list).
    rewrite length_app in IH. cbn [List.length] in IH.
    replace (List.length pre + 1) with (S (List.length pre)) in IH by lia.
    rewrite IH, resolvedNames_app. cbn [resolvedNames]. rewrite app_nil_r.
    reflexivity.
Qed.

Lemma _uniqLabels_uniqSeen found : _uniqLabels found = uniqSeen [] found.
Proof. exact (uniqFrom_uniqSeen found []). Qed.

Lemma uniqSeen_In l : forall seen name,
  In name (map getName (uniqSeen seen l)) <->
  In name (resolvedNames l) /\ ~ In name seen.
Proof.
  induction l as [|[c|] l IH]; intros seen name; cbn [uniqSeen resolvedNames].
  - cbn. tauto.
  - destruct (existsb (String.eqb (getName c)) seen) eqn:E.
    + rewrite IH. cbn. apply existsb_exists in E. destruct E as (y & Hy & Heq).
      apply String.eqb_eq in Heq. subst y.
      split; [tauto|]. intros [[H|H] Hn]; [subst; contradiction|tauto].
    + cbn [map In]. rewrite IH. cbn.
      assert (Hc : ~ In (getName c) seen).
      { intros Hin. assert (X : existsb (String.eqb (getName c)) seen = true).
        { apply existsb_exists. exists (getName c). split; [exact Hin|apply String.eqb_refl]. }
        congruence. }
      destruct (string_dec (getName c) name) as [Heq|Hne].
      * rewrite Heq in *. intuition auto.
      * tauto.
  - apply IH.
Qed.

Lemma uniqSeen_NoDup l : forall seen, NoDup (map getName (uniqSeen seen l)).
Proof.
  induction l as [|[c|] l IH]; intros seen; cbn [uniqSeen].
  - constructor.
  - destruct (existsb _ seen); [apply IH|].
    cbn [map]. constructor; [|apply IH].
    rewrite uniqSeen_In. cbn. tauto.
  - apply IH.
Qed.

End Uniq.

Lemma addedLabels_app tid e1 e2 :
  addedLabels tid (e1 ++ e2) = (addedLabels tid e1 ++ addedLabels tid e2)%list.
Proof.
  induction e1 as [|e e1 IH]; [reflexivity|].
  destruct e; cbn; try exact IH.
  destruct (String.eqb threadId tid); cbn; rewrite IH; reflexivity.
Qed.

Lemma addedLabels_labelEvents thread labels :
  addedLabels (getId thread) (labelEvents thread labels) = map getName labels.
Proof.
  induction labels as [|l ls IH]; [reflexivity|].
  cbn. rewrite String.eqb_refl. f_equal. exact IH.
Qed.

Lemma addedLabels_routeEvents F thread tid :
  addedLabels tid (routeEvents F thread) = [].
Proof. unfold routeEvents. destruct (existsb _ _); reflexivity. Qed.

Lemma processThread_ok F thread acct found :
  outcome (findLabels F thread acct) = Ok found ->
  processThread F thread acct =
    (Ok tt, account (findLabels F thread acct),
     (events (findLabels F thread acct) ++
      match _uniqLabels found with
      | [] => [noLabelsError thread]
      | labels => labelEvents thread labels ++ routeEvents F thread
      end)%list).
Proof.
  intros H. pose proof (outcome_eta (findLabels F thread acct)) as E.
  rewrite H in E.
  destruct (_uniqLabels found) as [|l ls] eqn:U.
  - apply processThread_empty with (found := found); assumption.
  - rewrite <- U. apply processThread_labelled; [assumption|congruence].
Qed.

Lemma uniq_nil_iff found :
  _uniqLabels found = [] <-> Forall (fun o => o = None) found.
Proof.
  rewrite _uniqLabels_uniqSeen. split.
  - intros H. apply Forall_forall. intros [l|] Hin; [exfalso|reflexivity].
    assert (X : In (getName l) (map getName (uniqSeen [] found))).
    { apply uniqSeen_In. split; [|intros []].
      clear H. induction found as [|[x|] found IH]; cbn in *.
      - contradiction.
      - destruct Hin as [E|Hin]; [inversion E; left; reflexivity|right; auto].
      - destruct Hin as [E|Hin]; [discriminate|auto]. }
    rewrite H in X. exact X.
  - intros H. induction H as [|o found Ho _ IH]; [reflexivity|].
    subst o. exact IH.
Qed.

(** ** The runs over a batch *)

Lemma runOn_nil F acct : runOn F [] acct = (Ok tt, acct, []).
Proof. reflexivity. Qed.

Lemma runOn_cons_ok F t ts acct acct1 ev1 :
  processThread F t acct = (Ok tt, acct1, ev1) ->
  runOn F (t :: ts) acct =
    (outcome (runOn F ts acct1), account (runOn F ts acct1),
     (ev1 ++ events (runOn F ts acct1))%list).
Proof.
  intros H. unfold runOn. cbn [mapM]. unfold bind. rewrite H.
  destruct (mapM (processThread F) ts acct1) as [[[r|e] a2] e2];
    unfold outcome, account, events, ret; cbn [fst snd].
  - rewrite !app_nil_r. reflexivity.
  - reflexivity.
Qed.

Lemma runOn_cons_threw F t ts acct e acct1 ev1 :
  processThread F t acct = (Threw e, acct1, ev1) ->
  runOn F (t :: ts) acct = (Threw e, acct1, ev1).
Proof.
  intros H. unfold runOn. cbn [mapM]. unfold bind. rewrite H. reflexivity.
Qed.

Lemma run_unfold F acct :
  run F acct = runOn F (search acct (searchQuery F) 0 (searchMax F)) acct.
Proof.
  unfold run, GmailApp_search. erewrite bind_ok by reflexivity.
  destruct (runOn F _ acct) as [[r a] e]. reflexivity.
Qed.

(** The threads are processed one after the other, each on the account
    that the threads before it left. *)
Lemma runOn_app F pre : forall acct a1 e1 post,
  runOn F pre acct = (Ok tt, a1, e1) ->
  runOn F (pre ++ post) acct =
    (outcome (runOn F post a1), account (runOn F post a1),
     (e1 ++ events (runOn F post a1))%list).
Proof.
  induction pre as [|p pre IH]; intros acct a1 e1 post H.
  - rewrite runOn_nil in H. inversion H; subst. cbn [app].
    apply outcome_eta.
  - cbn [app].
    destruct (processThread F p acct) as [[[[]|e'] a'] ev'] eqn:Hp.
    + rewrite (runOn_cons_ok _ _ _ _ _ _ Hp) in H.
      rewrite (runOn_cons_ok _ _ _ _ _ _ Hp).
      destruct (runOn F pre a') as [[r a''] e''] eqn:Hr.
      unfold outcome, account, events in H; cbn [fst snd] in H.
      inversion H; subst.
      rewrite (IH a' a1 e'' post Hr).
      unfold outcome, account, events; cbn [fst snd].
      rewrite app_assoc. reflexivity.
    + rewrite (runOn_cons_threw _ _ _ _ _ _ _ Hp) in H. discriminate.
Qed.

Lemma processThread_outcome F thread acct :
  outcome (processThread F thread acct) = Ok tt \/
  exists e, outcome (processThread F thread acct) = Threw e.
Proof.
  destruct (processThread F thread acct) as [[[[]|e] a] ev]; cbn; eauto.
Qed.

(** A thread that fails ends the batch: the threads after it are not
    reached, whatever they are. *)
Lemma runOn_stops F pre : forall acct a1 e1 t post e a2 e2,
  runOn F pre acct = (Ok tt, a1, e1) ->
  processThread F t a1 = (Threw e, a2, e2) ->
  runOn F (pre ++ t :: post) acct = (Threw e, a2, (e1 ++ e2)%list).
Proof.
  induction pre as [|p pre IH]; intros acct a1 e1 t post e a2 e2 Hpre Ht.
  - rewrite runOn_nil in Hpre. inversion Hpre; subst.
    cbn [app]. apply runOn_cons_threw. exact Ht.
  - cbn [app].
    destruct (processThread F p acct) as [[[[]|e'] a'] ev'] eqn:Hp.
    + rewrite (runOn_cons_ok _ _ _ _ _ _ Hp) in Hpre.
      rewrite (runOn_cons_ok _ _ _ _ _ _ Hp).
      destruct (runOn F pre a') as [[r a''] e''] eqn:Hr.
      unfold outcome, account, events in Hpre; cbn [fst snd] in Hpre.
      inversion Hpre; subst.
      rewrite (IH a' a1 e'' t post e a2 e2 Hr Ht).
      unfold outcome, account, events; cbn [fst snd].
      rewrite app_assoc. reflexivity.
    + rewrite (runOn_cons_threw _ _ _ _ _ _ _ Hp) in Hpre. discriminate.
Qed.

Lemma routing_labelEvents thread labels : routing (labelEvents thread labels) = [].
Proof. induction labels as [|l ls IH]; [reflexivity|exact IH]. Qed.

Lemma routing_routeEvents F thread :
  routing (routeEvents F thread) =
    if existsb (isImportantMessage F) (getMessages thread)
    then [MarkImportant (getId thread); MoveToInbox (getId thread)]
    else [MarkUnimportant (getId thread); MoveToArchive (getId thread)].
Proof. unfold routeEvents. destruct (existsb _ _); reflexivity. Qed.

Lemma threadMutations_app e1 e2 :
  threadMutations (e1 ++ e2) = (threadMutations e1 ++ threadMutations e2)%list.
Proof. apply filter_app. Qed.

(** ** C1: a failing thread and the rest of its batch *)

(** C1, as the code has it: [run] has no handler.  When the search returns
    the threads [pre ++ t :: post], the threads of [pre] are processed
    without error and processing [t] throws [e], then [run] itself throws
    [e]; its account and its events are those reached when [t] failed, so
    no thread of [post] is processed. *)
Theorem run_error_ends_batch F acct pre t post a1 e1 e a2 e2 :
  search acct (searchQuery F) 0 (searchMax F) = (pre ++ t :: post)%list ->
  runOn F pre acct = (Ok tt, a1, e1) ->
  processThread F t a1 = (Threw e, a2, e2) ->
  run F acct = (Threw e, a2, (e1 ++ e2)%list).
Proof.
  intros Hs Hpre Ht. unfold run, GmailApp_search.
  erewrite bind_ok by reflexivity. rewrite Hs.
  rewrite (runOn_stops F pre acct a1 e1 t post e a2 e2 Hpre Ht).
  reflexivity.
Qed.

Lemma run_error_ends_batch_witness :
  run (BugzillaFilter.filter 16) (Samples.account Samples.bugBatch) =
    (Threw ("Bugzilla URL match failed for message " ++ quoted "[Bug 1] no url"
              ++ " on Mon Nov 02 2026"),
     Samples.account Samples.bugBatch, []).
Proof.
  apply (run_error_ends_batch (BugzillaFilter.filter 16)
           (Samples.account Samples.bugBatch)
           [] (Samples.thread "t1" [Samples.bugNoUrl])
           [Samples.thread "t2" [Samples.bugComplete]]
           (Samples.account Samples.bugBatch) []
           _ (Samples.account Samples.bugBatch) []);
    reflexivity.
Defined.

(** C1, counterexample: in a batch of two Bugzilla threads whose first
    message lacks the X-Bugzilla-URL header, [run] ends with the exception
    and the second thread never gets the label it gets when processed on
    its own. *)
Lemma run_does_not_continue :
  let F := BugzillaFilter.filter 16 in
  let acct := Samples.account Samples.bugBatch in
  let t2 := Samples.thread "t2" [Samples.bugComplete] in
  outcome (run F acct) <> Ok tt /\
  addedLabels "t2" (events (run F acct)) = [] /\
  addedLabels "t2" (events (processThread F t2 acct)) = ["Eclipse Bugs/Platform/UI"].
Proof.
  cbv zeta. repeat split; [|vm_compute; reflexivity..].
  vm_compute. discriminate.
Qed.

(** ** C5: importance and routing *)

(** C5, as the code has it: when [findLabels] returns and the deduplicated
    label set is not empty, the thread is marked important and moved to
    the inbox if some message satisfies [isImportantMessage], and marked
    unimportant and moved to the archive if none does; these are the only
    marking and moving events. *)
Theorem importance_routing F thread acct found :
  outcome (findLabels F thread acct) = Ok found ->
  _uniqLabels found <> [] ->
  exists rest,
    events (processThread F thread acct) =
      (events (findLabels F thread acct) ++ rest)%list /\
    ((exists m, In m (getMessages thread) /\ isImportantMessage F m = true) ->
     routing rest = [MarkImportant (getId thread); MoveToInbox (getId thread)]) /\
    (~ (exists m, In m (getMessages thread) /\ isImportantMessage F m = true) ->
     routing rest = [MarkUnimportant (getId thread); MoveToArchive (getId thread)]).
Proof.
  intros H U. rewrite (processThread_ok F thread acct found H).
  destruct (_uniqLabels found) as [|l ls] eqn:E; [congruence|].
  eexists. split; [reflexivity|].
  unfold routing. rewrite filter_app. fold (routing (labelEvents thread (l :: ls))).
  rewrite routing_labelEvents. cbn [app]. fold (routing (routeEvents F thread)).
  rewrite routing_routeEvents.
  destruct (existsb (isImportantMessage F) (getMessages thread)) eqn:X.
  - split; [reflexivity|]. intros N. exfalso. apply N.
    apply existsb_exists. exact X.
  - split; [|reflexivity]. intros N. apply existsb_exists in N. congruence.
Qed.

Lemma importance_routing_witness :
  let F := GitHubFilter.filter 16 in
  let t := Samples.thread "t" [Samples.ghNotification] in
  let acct := Samples.account [] in
  exists rest,
    events (processThread F t acct) = (events (findLabels F t acct) ++ rest)%list /\
    ((exists m, In m (getMessages t) /\ isImportantMessage F m = true) ->
     routing rest = [MarkImportant (getId t); MoveToInbox (getId t)]) /\
    (~ (exists m, In m (getMessages t) /\ isImportantMessage F m = true) ->
     routing rest = [MarkUnimportant (getId t); MoveToArchive (getId t)]).
Proof.
  cbv zeta.
  apply (importance_routing (GitHubFilter.filter 16)
           (Samples.thread "t" [Samples.ghNotification]) (Samples.account [])
           [Some {| getName := "GitHub/my org/my repo" |}]).
  - vm_compute. reflexivity.
  - vm_compute. discriminate.
Defined.

(** C5, counterexample: a GitHub thread whose only message is a mention
    (an important message) without a List-ID header gets no label, and is
    neither marked important nor moved to the inbox. *)
Lemma important_thread_not_routed :
  let F := GitHubFilter.filter 16 in
  let t := Samples.thread "t" [Samples.ghMentionNoList] in
  let acct := Samples.account [] in
  (exists m, In m (getMessages t) /\ isImportantMessage F m = true) /\
  ~ In (MarkImportant (getId t)) (events (processThread F t acct)) /\
  ~ In (MoveToInbox (getId t)) (events (processThread F t acct)).
Proof.
  cbv zeta. split; [|split].
  - exists Samples.ghMentionNoList. split; [left; reflexivity|vm_compute; reflexivity].
  - vm_compute. intros [H|[H|[]]]; discriminate.
  - vm_compute. intros [H|[H|[]]]; discriminate.
Qed.

(** ** C6: every label is applied once *)

(** C6: after [findLabels] returned the labels [found], [run] adds labels
    with pairwise different names, and each name that a message resolved
    to is added exactly once. *)
Theorem labels_applied_once F thread acct found :
  outcome (findLabels F thread acct) = Ok found ->
  exists rest,
    events (processThread F thread acct) =
      (events (findLabels F thread acct) ++ rest)%list /\
    NoDup (addedLabels (getId thread) rest) /\
    (forall name, In name (addedLabels (getId thread) rest) ->
                  In name (resolvedNames found)) /\
    (forall name, In name (resolvedNames found) ->
                  count_occ string_dec (addedLabels (getId thread) rest) name = 1).
Proof.
  intros H. rewrite (processThread_ok F thread acct found H).
  eexists. split; [reflexivity|].
  assert (A : addedLabels (getId thread)
                match _uniqLabels found with
                | [] => [noLabelsError thread]
                | l :: ls => (labelEvents thread (l :: ls) ++ routeEvents F thread)%list
                end = map getName (_uniqLabels found)).
  { destruct (_uniqLabels found) as [|l ls]; [reflexivity|].
    rewrite addedLabels_app, addedLabels_labelEvents, addedLabels_routeEvents.
    apply app_nil_r. }
  rewrite A, _uniqLabels_uniqSeen.
  assert (N : NoDup (map getName (uniqSeen [] found))) by apply uniqSeen_NoDup.
  split; [exact N|]. split.
  - intros name Hin. apply uniqSeen_In in Hin. tauto.
  - intros name Hin. apply NoDup_count_occ'; [exact N|].
    apply uniqSeen_In. split; [exact Hin|intros []].
Qed.

Lemma labels_applied_once_witness :
  let F := GitHubFilter.filter 16 in
  let t := Samples.thread "t" [Samples.ghNotification; Samples.ghMentionNoList;
                               Samples.ghNotification] in
  let acct := Samples.account [] in
  let found := [Some {| getName := "GitHub/my org/my repo" |}; None;
                Some {| getName := "GitHub/my org/my repo" |}] in
  exists rest,
    events (processThread F t acct) = (events (findLabels F t acct) ++ rest)%list /\
    NoDup (addedLabels (getId t) rest) /\
    (forall name, In name (addedLabels (getId t) rest) ->
                  In name (resolvedNames found)) /\
    (forall name, In name (resolvedNames found) ->
                  count_occ string_dec (addedLabels (getId t) rest) name = 1).
Proof.
  cbv zeta.
  apply (labels_applied_once (GitHubFilter.filter 16)
           (Samples.thread "t" [Samples.ghNotification; Samples.ghMentionNoList;
                                Samples.ghNotification])
           (Samples.account [])).
  vm_compute. reflexivity.
Defined.

(** ** C7: a thread without labels is left alone *)

(** C7: when [findLabels] returned and the deduplicated label set is empty,
    no message yielded a label, and [run] only logs the error that names the
    thread (its subject and its id): it adds no thread operation to what
    [findLabels] did. *)
Theorem no_labels_no_mutation F thread acct found :
  outcome (findLabels F thread acct) = Ok found ->
  _uniqLabels found = [] ->
  Forall (fun o => o = None) found /\
  processThread F thread acct =
    (Ok tt, account (findLabels F thread acct),
     (events (findLabels F thread acct) ++
      [Console LogError
         [("No labels found for thread " ++ quoted (getFirstMessageSubject thread)
             ++ " (id=" ++ quoted (getId thread) ++ ")")%string]])%list) /\
  threadMutations (events (processThread F thread acct)) =
    threadMutations (events (findLabels F thread acct)).
Proof.
  intros H U. split; [apply uniq_nil_iff; exact U|].
  rewrite (processThread_ok F thread acct found H), U.
  split; [reflexivity|].
  unfold events at 1; cbn [snd]. rewrite threadMutations_app. apply app_nil_r.
Qed.

Lemma no_labels_no_mutation_witness :
  let F := GitHubFilter.filter 16 in
  let t := Samples.thread "t" [Samples.ghMentionNoList] in
  let acct := Samples.account [] in
  Forall (fun o : option GmailLabel => o = None) [None] /\
  processThread F t acct =
    (Ok tt, account (findLabels F t acct),
     (events (findLabels F t acct) ++
      [Console LogError
         [("No labels found for thread " ++ quoted (getFirstMessageSubject t)
             ++ " (id=" ++ quoted (getId t) ++ ")")%string]])%list) /\
  threadMutations (events (processThread F t acct)) =
    threadMutations (events (findLabels F t acct)).
Proof.
  cbv zeta.
  apply (no_labels_no_mutation (GitHubFilter.filter 16)
           (Samples.thread "t" [Samples.ghMentionNoList]) (Samples.account [])
           [None]); vm_compute; reflexivity.
Defined.

(** ** C8: resolving a label path twice *)

Section Hierarchy.

Lemma getOrCreate_present labelStr acct :
  hasLabel acct (sanitize labelStr) ->
  _getOrCreateLabel labelStr acct = (Ok {| getName := sanitize labelStr |}, acct, []).
Proof.
  unfold hasLabel, _getOrCreateLabel, bind, getUserLabelByName.
  intros H. rewrite H. reflexivity.
Qed.

Lemma hasLabel_snoc acct name n :
  hasLabel (withLabels acct (userLabels acct ++ [name])) n <->
  hasLabel acct n \/ n = name.
Proof.
  unfold hasLabel, withLabels; cbn [userLabels].
  rewrite existsb_app; cbn [existsb]. rewrite orb_false_r, orb_true_iff.
  rewrite String.eqb_eq. reflexivity.
Qed.

(** A call that returns gives the label of the sanitized name, leaves that
    name in the account and removes no label. *)
Lemma getOrCreate_ok labelStr acct l acct' ev :
  _getOrCreateLabel labelStr acct = (Ok l, acct', ev) ->
  l = {| getName := sanitize labelStr |} /\
  hasLabel acct' (sanitize labelStr) /\
  (forall n, hasLabel acct n -> hasLabel acct' n).
Proof.
  unfold _getOrCreateLabel, bind, getUserLabelByName, tryCatch, createLabel.
  destruct (existsb (String.eqb (sanitize labelStr)) (userLabels acct)) eqn:E.
  - cbn. intros H. inversion H; subst. auto.
  - destruct (createLabelError acct (userLabels acct) (sanitize labelStr)) as [e|];
      cbn; intros H; inversion H; subst.
    split; [reflexivity|]. split.
    + apply hasLabel_snoc. right. reflexivity.
    + intros n Hn. apply hasLabel_snoc. left. exact Hn.
Qed.

Lemma hierarchyStep_ok cur seg acct r acct' ev :
  hierarchyStep cur seg acct = (Ok r, acct', ev) ->
  exists labelStr,
    r = Some {| getName := sanitize labelStr |} /\
    hasLabel acct' (sanitize labelStr) /\
    (forall n, hasLabel acct n -> hasLabel acct' n) /\
    (forall acct2, hasLabel acct2 (sanitize labelStr) ->
                   hierarchyStep cur seg acct2 = (Ok r, acct2, [])).
Proof.
  unfold hierarchyStep.
  destruct cur as [cl|]; intros H;
    [exists (getName cl ++ "/" ++ seg)|exists seg];
    unfold bind in H;
    match type of H with
    | context [_getOrCreateLabel ?x acct] =>
        destruct (_getOrCreateLabel x acct) as [[[l|e] a1] e1] eqn:G;
        [|discriminate];
        cbn in H; inversion H; subst;
        destruct (getOrCreate_ok _ _ _ _ _ G) as (-> & Hhas & Hmono);
        repeat split; auto;
        intros acct2 H2; unfold bind;
        rewrite (getOrCreate_present x acct2 H2); reflexivity
    end.
Qed.

(** Once a reduction over the segments has returned, the same reduction on
    any account that kept its labels returns the same label, creates
    nothing and logs nothing. *)
Lemma reduce_again segs : forall cur acct r acct' ev,
  reduceM hierarchyStep segs cur acct = (Ok r, acct', ev) ->
  (forall n, hasLabel acct n -> hasLabel acct' n) /\
  (forall acct2, (forall n, hasLabel acct' n -> hasLabel acct2 n) ->
                 reduceM hierarchyStep segs cur acct2 = (Ok r, acct2, [])).
Proof.
  induction segs as [|seg segs IH]; intros cur acct r acct' ev H.
  - cbn in H. inversion H; subst. split; [auto|]. intros; reflexivity.
  - cbn [reduceM] in H |- *. unfold bind in H.
    destruct (hierarchyStep cur seg acct) as [[[r1|e] a1] e1] eqn:S1; [|discriminate].
    destruct (reduceM hierarchyStep segs r1 a1) as [[r2 a2] e2] eqn:S2.
    inversion H; subst.
    destruct (hierarchyStep_ok _ _ _ _ _ _ S1) as (name & _ & Hhas & Hmono & Hagain).
    destruct (IH _ _ _ _ _ S2) as (Hmono2 & Hagain2).
    split; [auto|].
    intros acct2 Hsub. unfold bind.
    rewrite (Hagain acct2 (Hsub _ (Hmono2 _ Hhas))).
    rewrite (Hagain2 acct2 Hsub). reflexivity.
Qed.

End Hierarchy.

(** C8: when resolving a label path returns a label, resolving the same
    path again on the account so reached returns the same label (so the
    same full name), leaves the account as it is and causes no event: no
    label is created by the second call. *)
Theorem hierarchy_idempotent labelName separator acct l acct' ev :
  _getOrCreateLabelHierarchy labelName separator acct = (Ok l, acct', ev) ->
  _getOrCreateLabelHierarchy labelName separator acct' = (Ok l, acct', []).
Proof.
  unfold _getOrCreateLabelHierarchy. intros H.
  destruct (reduce_again _ _ _ _ _ _ H) as (_ & Hagain).
  apply Hagain. auto.
Qed.

Lemma hierarchy_idempotent_witness :
  let acct' := withLabels (Samples.account [])
                 ["GitHub"; "GitHub/my org"; "GitHub/my org/my repo_1_"] in
  _getOrCreateLabelHierarchy "GitHub/my org/my repo(1)" "/" acct' =
    (Ok (Some {| getName := "GitHub/my org/my repo_1_" |}), acct', []).
Proof.
  cbv zeta.
  apply (hierarchy_idempotent "GitHub/my org/my repo(1)" "/" (Samples.account [])
           (Some {| getName := "GitHub/my org/my repo_1_" |}) _
           [CreateLabel "GitHub"; CreateLabel "GitHub/my org";
            CreateLabel "GitHub/my org/my repo_1_"]).
  reflexivity.
Defined.

(** ** Strings *)

Section Strings.

Lemma append_assoc (a b c : string) : (a ++ b) ++ c = a ++ (b ++ c).
Proof. induction a as [|x a IH]; cbn; [reflexivity|rewrite IH; reflexivity]. Qed.

Lemma append_nil_r (a : string) : a ++ EmptyString = a.
Proof. induction a as [|x a IH]; cbn; [reflexivity|rewrite IH; reflexivity]. Qed.

Lemma length_append (a b : string) :
  String.length (a ++ b) = String.length a + String.length b.
Proof. induction a as [|x a IH]; cbn; [reflexivity|rewrite IH; reflexivity]. Qed.

Lemma take_append (a b : string) :
  take (String.length (a ++ b) - String.length b) (a ++ b) = a.
Proof.
  rewrite length_append.
  replace (String.length a + String.length b - String.length b)
    with (String.length a) by lia.
  induction a as [|x a IH]; cbn.
  - destruct b; reflexivity.
  - rewrite IH. reflexivity.
Qed.

Lemma lastOf_append prev (a b : string) :
  lastOf prev (a ++ b) = lastOf (lastOf prev a) b.
Proof. revert prev. induction a as [|x a IH]; intros prev; cbn; [reflexivity|apply IH]. Qed.

Lemma forallChars_append p (a b : string) :
  forallChars p (a ++ b) = forallChars p a && forallChars p b.
Proof.
  induction a as [|x a IH]; cbn; [reflexivity|].
  rewrite IH, andb_assoc. reflexivity.
Qed.

Lemma takeWhile_dropWhile p (s : string) : takeWhile p s ++ dropWhile p s = s.
Proof.
  induction s as [|c s IH]; cbn; [reflexivity|].
  destruct (p c); cbn; [rewrite IH|]; reflexivity.
Qed.

Lemma forallChars_takeWhile p (s : string) : forallChars p (takeWhile p s) = true.
Proof.
  induction s as [|c s IH]; cbn; [reflexivity|].
  destruct (p c) eqn:E; cbn; [rewrite E; exact IH|reflexivity].
Qed.

End Strings.

(** ** The matcher *)

Lemma stopsAt_dropWhile cs s : stopsAt cs (dropWhile cs s).
Proof.
  induction s as [|c s IH]; cbn; [exact I|].
  destruct (cs c) eqn:E; [exact IH|exact E].
Qed.

Section MatcherFacts.
Variable f : flags.
Variable R : Type.

(** A greedy star that can take the whole run and go on takes it. *)
Lemma matchStar_run cs a : forall prev rest caps (k : cont R) x,
  forallChars cs a = true ->
  stopsAt cs rest ->
  k (lastOf prev a) rest caps = Some x ->
  matchStar R cs prev (a ++ rest) caps k = Some x.
Proof.
  induction a as [|c a IH]; intros prev rest caps k x Ha Hstop Hk; cbn in *.
  - destruct rest as [|c r]; cbn in *; [exact Hk|]. rewrite Hstop. exact Hk.
  - apply andb_true_iff in Ha. destruct Ha as [Hc Ha]. rewrite Hc.
    rewrite (IH (Some c) rest caps k x Ha Hstop Hk). reflexivity.
Qed.

Lemma matchStar_sound cs s : forall prev caps (k : cont R) x,
  matchStar R cs prev s caps k = Some x ->
  exists s1 s2,
    s = s1 ++ s2 /\ forallChars cs s1 = true /\ k (lastOf prev s1) s2 caps = Some x.
Proof.
  induction s as [|c s IH]; intros prev caps k x H; cbn in H.
  - exists EmptyString, EmptyString. auto.
  - destruct (cs c) eqn:Hc.
    + destruct (matchStar R cs (Some c) s caps k) as [y|] eqn:E.
      * inversion H; subst y.
        destruct (IH _ _ _ _ E) as (s1 & s2 & -> & Hall & Hk).
        exists (String c s1), s2. cbn. rewrite Hc, Hall. auto.
      * exists EmptyString, (String c s). auto.
    + exists EmptyString, (String c s). auto.
Qed.

(** Soundness of the matcher: a successful match splits the input into the
    text matched, as [Matches] tells it, and the rest that the
    continuation accepted. *)
Lemma matchAt_sound r : forall prev s caps (k : cont R) x,
  matchAt f R r prev s caps k = Some x ->
  exists s1 s2 caps',
    s = s1 ++ s2 /\ Matches f r prev s1 caps caps' /\
    k (lastOf prev s1) s2 caps' = Some x.
Proof.
  induction r as [p|cs| |r1 IH1 r2 IH2|r1 IH1|cs|n r1 IH1];
    intros prev s caps k x H; cbn [matchAt] in H.
  - destruct s as [|c s]; [discriminate|].
    destruct (charMatches f p c) eqn:E; [|discriminate].
    exists (String c EmptyString), s, caps. repeat split; [constructor; exact E|exact H].
  - destruct s as [|c s]; [discriminate|].
    destruct (cs c) eqn:E; [|discriminate].
    exists (String c EmptyString), s, caps. repeat split; [constructor; exact E|exact H].
  - destruct (atLineStart f prev) eqn:E; [|discriminate].
    exists EmptyString, s, caps. repeat split; [constructor; exact E|exact H].
  - destruct (IH1 _ _ _ _ _ H) as (s1 & s' & c1 & -> & M1 & H2).
    destruct (IH2 _ _ _ _ _ H2) as (s2 & s3 & c2 & -> & M2 & H3).
    exists (s1 ++ s2), s3, c2. rewrite append_assoc, lastOf_append.
    repeat split; [econstructor; eassumption|exact H3].
  - destruct (matchAt f R r1 prev s caps k) as [y|] eqn:E.
    + inversion H; subst y.
      destruct (IH1 _ _ _ _ _ E) as (s1 & s2 & c1 & -> & M1 & H2).
      exists s1, s2, c1. repeat split; [apply MOptSome; exact M1|exact H2].
    + exists EmptyString, s, caps. repeat split; [constructor|exact H].
  - destruct (matchStar_sound _ _ _ _ _ _ H) as (s1 & s2 & -> & Hall & Hk).
    exists s1, s2, caps. repeat split; [constructor; exact Hall|exact Hk].
  - destruct (IH1 _ _ _ _ _ H) as (s1 & s2 & c1 & -> & M1 & H2).
    rewrite take_append in H2.
    exists s1, s2, (setCapture n s1 c1).
    repeat split; [constructor; exact M1|exact H2].
Qed.

End MatcherFacts.

(** A match found by the search starts somewhere in the input, and is a
    match of the pattern there. *)
Lemma searchFrom_sound f r s : forall prev caps,
  searchFrom f r prev s = Some caps ->
  exists pre s1 s2 c1,
    s = pre ++ s1 ++ s2 /\
    Matches f r (lastOf prev pre) s1 (repeat None (S (groups r))) c1 /\
    caps = setCapture 0 s1 c1.
Proof.
  induction s as [|c s IH]; intros prev caps H; cbn [searchFrom] in H.
  - destruct (matchHere f r prev EmptyString) as [m|] eqn:E; [|discriminate].
    inversion H; subst m. unfold matchHere in E.
    destruct (matchAt_sound _ _ _ _ _ _ _ _ E) as (s1 & s2 & c1 & Hs & M & Hk).
    inversion M; subst. inversion Hk; subst.
    exists EmptyString, s1, s2, c2. repeat split; assumption.
  - destruct (matchHere f r prev (String c s)) as [m|] eqn:E.
    + inversion H; subst m. unfold matchHere in E.
      destruct (matchAt_sound _ _ _ _ _ _ _ _ E) as (s1 & s2 & c1 & Hs & M & Hk).
      inversion M; subst. inversion Hk; subst.
      exists EmptyString, s1, s2, c2. repeat split; assumption.
    + destruct (IH _ _ H) as (pre & s1 & s2 & c1 & -> & M & ->).
      exists (String c pre), s1, s2, c1. repeat split. exact M.
Qed.

(** ** The name of a resolved label *)

Section HierarchyName.

Lemma sanitize_append a b : sanitize (a ++ b) = sanitize a ++ sanitize b.
Proof.
  unfold sanitize. induction a as [|c a IH]; cbn; [reflexivity|].
  rewrite IH. reflexivity.
Qed.

Lemma sanitize_idem a : sanitize (sanitize a) = sanitize a.
Proof.
  unfold sanitize. induction a as [|c a IH]; cbn; [reflexivity|].
  rewrite IH. f_equal.
  destruct (Ascii.eqb c "(" || Ascii.eqb c ")") eqn:E; [reflexivity|exact (f_equal (fun b : bool => if b then "_"%char else c) E)].
Qed.

Lemma splitFrom_slash_cons c s :
  splitFrom "/" 0 (String c s) =
    if Ascii.eqb c "/"
    then EmptyString :: splitFrom "/" 0 s
    else match splitFrom "/" 0 s with
         | seg :: rest => String c seg :: rest
         | [] => [String c EmptyString]
         end.
Proof.
  cbn [splitFrom String.prefix String.length Nat.sub].
  destruct (ascii_dec "/" c) as [<-|N].
  - destruct s; reflexivity.
  - replace (Ascii.eqb c "/") with false; [reflexivity|].
    symmetry. apply Ascii.eqb_neq. congruence.
Qed.

Lemma splitFrom_slash_nonempty s : splitFrom "/" 0 s <> [].
Proof.
  destruct s as [|c s]; [discriminate|].
  rewrite splitFrom_slash_cons.
  destruct (Ascii.eqb c "/"); [discriminate|].
  destruct (splitFrom "/" 0 s); discriminate.
Qed.

(** Joining the segments of a split gives the path back. *)
Lemma concat_split_slash s : String.concat "/" (split "/" s) = s.
Proof.
  unfold split. induction s as [|c s IH]; [reflexivity|].
  rewrite splitFrom_slash_cons.
  pose proof (splitFrom_slash_nonempty s) as NE.
  destruct (splitFrom "/" 0 s) as [|seg rest] eqn:E; [congruence|].
  destruct (Ascii.eqb c "/") eqn:Ec.
  - apply Ascii.eqb_eq in Ec. subst c.
    change (String.concat "/" (EmptyString :: seg :: rest))
      with (EmptyString ++ "/" ++ String.concat "/" (seg :: rest)).
    rewrite IH. reflexivity.
  - destruct rest as [|seg2 rest].
    + cbn in IH |- *. rewrite IH. reflexivity.
    + change (String.concat "/" (String c seg :: seg2 :: rest))
        with (String c seg ++ "/" ++ String.concat "/" (seg2 :: rest)).
      change (String.concat "/" (seg :: seg2 :: rest))
        with (seg ++ "/" ++ String.concat "/" (seg2 :: rest)) in IH.
      rewrite <- IH. reflexivity.
Qed.

Lemma reduce_name segs : forall p acct r acct' ev,
  reduceM hierarchyStep segs (Some {| getName := sanitize p |}) acct = (Ok r, acct', ev) ->
  r = Some {| getName :=
                sanitize (fold_left (fun acc seg => acc ++ "/" ++ seg) segs p) |}.
Proof.
  induction segs as [|seg segs IH]; intros p acct r acct' ev H.
  - cbn in H. inversion H; subst. reflexivity.
  - cbn [reduceM fold_left] in H |- *. unfold bind in H.
    destruct (hierarchyStep _ seg acct) as [[[r1|e] a1] e1] eqn:S1; [|discriminate].
    destruct (reduceM hierarchyStep segs r1 a1) as [[r2 a2] e2] eqn:S2.
    inversion H; subst.
    destruct (hierarchyStep_ok _ _ _ _ _ _ S1) as (name & _ & _ & _ & _).
    unfold hierarchyStep, bind in S1. cbn [getName] in S1.
    destruct (_getOrCreateLabel (sanitize p ++ "/" ++ seg) acct)
      as [[[l|e] a0] e0] eqn:G; [|discriminate].
    destruct (getOrCreate_ok _ _ _ _ _ G) as (-> & _ & _).
    cbn in S1. inversion S1; subst.
    rewrite sanitize_append, sanitize_idem, <- sanitize_append in S2.
    exact (IH _ _ _ _ _ S2).
Qed.

Lemma fold_concat segs : forall p,
  fold_left (fun acc seg => acc ++ "/" ++ seg) segs p = String.concat "/" (p :: segs).
Proof.
  induction segs as [|seg segs IH]; intros p; [reflexivity|].
  cbn [fold_left]. rewrite IH.
  destruct segs as [|seg2 segs]; [reflexivity|].
  change (String.concat "/" ((p ++ "/" ++ seg) :: seg2 :: segs))
    with ((p ++ "/" ++ seg) ++ "/" ++ String.concat "/" (seg2 :: segs)).
  rewrite append_assoc. reflexivity.
Qed.

(** The label that a path resolves to carries the sanitized path as its
    name; in particular the result is never null. *)
Lemma hierarchy_name path acct r acct' ev :
  hierarchy path acct = (Ok r, acct', ev) ->
  r = Some {| getName := sanitize path |}.
Proof.
  unfold hierarchy, _getOrCreateLabelHierarchy. intros H.
  rewrite <- (concat_split_slash path) at 1.
  pose proof (splitFrom_slash_nonempty path) as NE.
  unfold split in *.
  destruct (splitFrom "/" 0 path) as [|seg segs]; [congruence|].
  cbn [reduceM] in H. unfold bind in H.
  destruct (hierarchyStep None seg acct) as [[[r1|e] a1] e1] eqn:S1; [|discriminate].
  destruct (reduceM hierarchyStep segs r1 a1) as [[r2 a2] e2] eqn:S2.
  inversion H; subst.
  unfold hierarchyStep, bind in S1.
  destruct (_getOrCreateLabel seg acct) as [[[l|e] a0] e0] eqn:G; [|discriminate].
  destruct (getOrCreate_ok _ _ _ _ _ G) as (-> & _ & _).
  cbn in S1. inversion S1; subst.
  rewrite (reduce_name _ _ _ _ _ _ S2), fold_concat. reflexivity.
Qed.

End HierarchyName.

(** ** GitHub: organisation and repository of a List-ID *)

Lemma searchFrom_here f r prev s m :
  matchHere f r prev s = Some m -> searchFrom f r prev s = Some m.
Proof. intros H. destruct s; cbn [searchFrom]; rewrite H; reflexivity. Qed.

Lemma take_prefix (a b : string) n :
  n = String.length a -> take n (a ++ b) = a.
Proof.
  intros ->. induction a as [|x a IH]; cbn.
  - destruct b; reflexivity.
  - rewrite IH. reflexivity.
Qed.

Lemma take_dropWhile p (s : string) :
  take (String.length s - String.length (dropWhile p s)) s = takeWhile p s.
Proof.
  pose proof (take_append (takeWhile p s) (dropWhile p s)) as H.
  rewrite takeWhile_dropWhile in H. exact H.
Qed.

Section OrgRepo.
Variables org rest : string.
Hypothesis org_no_slash : forallChars (noneOf ["/"%char]) org = true.

Lemma whole_split :
  org ++ String "/" rest =
    (org ++ String "/" (takeWhile dot rest)) ++ dropWhile dot rest.
Proof.
  rewrite append_assoc. cbn [append]. rewrite takeWhile_dropWhile. reflexivity.
Qed.

(** On a text with a slash both patterns match at its start: the
    organisation is what stands before the first slash, the repository
    what stands after it up to the end of the line. *)
Lemma exec_reOrg :
  exec GitHubFilter.reOrg (org ++ "/" ++ rest) =
    Some [Some (org ++ "/" ++ takeWhile dot rest); Some org].
Proof.
  unfold exec. apply searchFrom_here. unfold matchHere.
  cbn [GitHubFilter.reOrg source reFlags seq matchAt groups Nat.max repeat].
  apply matchStar_run; [exact org_no_slash|reflexivity|].
  cbn [append charMatches flags_none ignoreCase]. rewrite Ascii.eqb_refl.
  rewrite <- (takeWhile_dropWhile dot rest) at 1.
  apply matchStar_run;
    [apply forallChars_takeWhile|apply stopsAt_dropWhile|].
  rewrite (take_append org (String "/" rest)). cbn [setCapture].
  rewrite whole_split, take_append. reflexivity.
Qed.

Lemma exec_reRepo :
  exec GitHubFilter.reRepo (org ++ "/" ++ rest) =
    Some [Some (org ++ "/" ++ takeWhile dot rest); Some (takeWhile dot rest)].
Proof.
  unfold exec. apply searchFrom_here. unfold matchHere.
  cbn [GitHubFilter.reRepo source reFlags seq matchAt groups Nat.max repeat].
  apply matchStar_run; [exact org_no_slash|reflexivity|].
  cbn [append charMatches flags_none ignoreCase]. rewrite Ascii.eqb_refl.
  rewrite <- (takeWhile_dropWhile dot rest) at 1.
  apply matchStar_run;
    [apply forallChars_takeWhile|apply stopsAt_dropWhile|].
  rewrite take_dropWhile. cbn [setCapture].
  rewrite whole_split, take_append. reflexivity.
Qed.

End OrgRepo.

(** The label path of a GitHub message whose List-ID has a slash before
    the bracket. *)
Lemma github_findLabel_path m org rest :
  group 1 (exec GitHubFilter.reListId (getRawContent m)) = Some (org ++ "/" ++ rest) ->
  forallChars (noneOf ["/"%char]) org = true ->
  forall acct,
    GitHubFilter.findLabel m acct =
      hierarchy ("GitHub/" ++ GitHubFilter.segment (Some org) "unknown_org"
                   ++ "/" ++ GitHubFilter.segment (Some (takeWhile dot rest)) "unknown_repo")
                acct.
Proof.
  intros H Horg acct. unfold GitHubFilter.findLabel.
  destruct (exec GitHubFilter.reListId (getRawContent m)) as [caps|];
    [|discriminate].
  cbn [group] in H.
  destruct caps as [|c0 [|c1 caps]]; try discriminate.
  cbn [nth] in H. subst c1.
  rewrite (exec_reOrg org rest Horg), (exec_reRepo org rest Horg).
  reflexivity.
Qed.

Lemma hierarchy_not_null path acct : outcome (hierarchy path acct) <> Ok None.
Proof.
  destruct (hierarchy path acct) as [[r a] e] eqn:H. cbn. intros ->.
  apply hierarchy_name in H. discriminate.
Qed.

(** ** C2: the GitHub labeling scenario *)

(** C2, as the code has it: the organisation and the repository are read
    from the text before the angle bracket.  A message whose List-ID
    header reads [my_org/my_repo] there resolves the path
    [GitHub/my org/my repo], and the label it gets has that name. *)
Theorem github_label_path m :
  group 1 (exec GitHubFilter.reListId (getRawContent m)) = Some "my_org/my_repo" ->
  forall acct,
    GitHubFilter.findLabel m acct = hierarchy "GitHub/my org/my repo" acct /\
    (forall r acct' ev,
        GitHubFilter.findLabel m acct = (Ok r, acct', ev) ->
        r = Some {| getName := "GitHub/my org/my repo" |}).
Proof.
  intros H acct.
  assert (E : GitHubFilter.findLabel m acct = hierarchy "GitHub/my org/my repo" acct).
  { rewrite (github_findLabel_path m "my_org" "my_repo" H eq_refl acct). reflexivity. }
  split; [exact E|].
  intros r acct' ev Hr. rewrite E in Hr. apply hierarchy_name in Hr. exact Hr.
Qed.

Lemma github_label_path_witness :
  let acct := Samples.account [] in
  GitHubFilter.findLabel Samples.ghNotification acct =
    hierarchy "GitHub/my org/my repo" acct /\
  (forall r acct' ev,
      GitHubFilter.findLabel Samples.ghNotification acct = (Ok r, acct', ev) ->
      r = Some {| getName := "GitHub/my org/my repo" |}).
Proof.
  cbv zeta. apply (github_label_path Samples.ghNotification). vm_compute. reflexivity.
Defined.

(** C2, counterexample: on the header of the scenario as it is written,
    [List-ID: my_repo.my_org <my_org/my_repo.github.com>], the text before
    the bracket has no slash; an error is logged and the result is null. *)
Lemma github_scenario_yields_none :
  GitHubFilter.findLabel Samples.ghScenario (Samples.account []) =
    (Ok None, Samples.account [],
     [Console LogError
        [("Something went wrong during matching of " ++ quoted "my_repo.my_org")%string]]).
Proof. vm_compute. reflexivity. Qed.

(** ** C9: placeholders for an empty organisation or repository *)

Lemma segment_empty placeholder :
  GitHubFilter.segment (Some EmptyString) placeholder = placeholder.
Proof. reflexivity. Qed.

Lemma segment_kept part placeholder :
  part <> EmptyString ->
  GitHubFilter.segment (Some part) placeholder = replaceAll "_" " " (trim part).
Proof. destruct part; [congruence|reflexivity]. Qed.

(** C9: let the text before the angle bracket of the List-ID be
    [org ++ "/" ++ rest] with no slash in [org], and let the repository
    part be [rest] up to the end of its line.  The result is never null.
    An empty organisation is replaced by [unknown_org] and an empty
    repository by [unknown_repo], and only the empty part is replaced: the
    part that is not empty stays in the path, trimmed and with its
    underscores turned into spaces. *)
Theorem github_placeholders m org rest :
  group 1 (exec GitHubFilter.reListId (getRawContent m)) = Some (org ++ "/" ++ rest) ->
  forallChars (noneOf ["/"%char]) org = true ->
  forall acct,
    outcome (GitHubFilter.findLabel m acct) <> Ok None /\
    (org = EmptyString -> takeWhile dot rest = EmptyString ->
     GitHubFilter.findLabel m acct =
       hierarchy "GitHub/unknown_org/unknown_repo" acct) /\
    (org = EmptyString -> takeWhile dot rest <> EmptyString ->
     GitHubFilter.findLabel m acct =
       hierarchy ("GitHub/unknown_org/"
                    ++ replaceAll "_" " " (trim (takeWhile dot rest)))
                 acct) /\
    (org <> EmptyString -> takeWhile dot rest = EmptyString ->
     GitHubFilter.findLabel m acct =
       hierarchy ("GitHub/" ++ replaceAll "_" " " (trim org) ++ "/unknown_repo")
                 acct).
Proof.
  intros H Horg acct.
  pose proof (github_findLabel_path m org rest H Horg acct) as E.
  split; [rewrite E; apply hierarchy_not_null|].
  split; [|split].
  - intros -> Hrepo. rewrite Hrepo in E. exact E.
  - intros -> Hrepo. rewrite (segment_kept _ _ Hrepo) in E. exact E.
  - intros Ho Hrepo. rewrite Hrepo, (segment_kept _ _ Ho) in E. exact E.
Qed.

Lemma github_placeholders_witness :
  outcome (GitHubFilter.findLabel Samples.ghEmptyRepo (Samples.account [])) <> Ok None /\
  GitHubFilter.findLabel Samples.ghEmptyRepo (Samples.account []) =
    hierarchy "GitHub/org/unknown_repo" (Samples.account []).
Proof.
  destruct (github_placeholders Samples.ghEmptyRepo "org" EmptyString
              ltac:(vm_compute; reflexivity) ltac:(vm_compute; reflexivity)
              (Samples.account []))
    as (NotNull & _ & _ & EmptyRepo).
  split; [exact NotNull|].
  exact (EmptyRepo ltac:(discriminate) eq_refl).
Defined.

(** The two examples of C9, evaluated. *)
Example github_empty_repo :
  outcome (GitHubFilter.findLabel Samples.ghEmptyRepo (Samples.account [])) =
    Ok (Some {| getName := "GitHub/org/unknown_repo" |}).
Proof. vm_compute. reflexivity. Qed.

Example github_empty_org :
  outcome (GitHubFilter.findLabel Samples.ghEmptyOrg (Samples.account [])) =
    Ok (Some {| getName := "GitHub/unknown_org/repo" |}).
Proof. vm_compute. reflexivity. Qed.

(** ** C3: the importance of a Bugzilla message *)

(** C3, at the failing input: for the header
    [X-Bugzilla-Reason: =?UTF-8?Q?None?=] the wrapper group does not match
    (the pattern reads optional backslashes where the wrapper has question
    marks), group 2 stops before the first question mark and holds the
    equals sign alone, and the message counts as important although its
    decoded reason is [None]. *)
Theorem bugzilla_wrapped_none_important :
  exec BugzillaFilter.reReason (getRawContent Samples.bugWrappedNone) =
    Some [Some "X-Bugzilla-Reason: ="; None; Some "="; None] /\
  BugzillaFilter.isImportantMessage Samples.bugWrappedNone = true.
Proof. split; vm_compute; reflexivity. Qed.

(** Without the wrapper the comparison is the one that C3 describes. *)
Example bugzilla_plain_none :
  BugzillaFilter.isImportantMessage
    (Samples.message "plain" ("X-Bugzilla-Reason: None" ++ Samples.nl)) = false.
Proof. vm_compute. reflexivity. Qed.

Example bugzilla_plain_cc :
  BugzillaFilter.isImportantMessage
    (Samples.message "plain" ("X-Bugzilla-Reason: CC" ++ Samples.nl)) = true.
Proof. vm_compute. reflexivity. Qed.

Example bugzilla_no_reason :
  BugzillaFilter.isImportantMessage Samples.bugComplete = false.
Proof. vm_compute. reflexivity. Qed.

(** ** C4: the label path of a GitLab message *)

(** C4, at the failing input: the one-letter segment [x] of the project
    path [eclipse/x/proj] is neither empty nor white space, and it is
    dropped. *)
Theorem gitlab_short_segment_dropped :
  GitLabFilter.projectLabel ["eclipse"; "x"; "proj"] = "gitlab.eclipse.org/eclipse/proj" /\
  outcome (GitLabFilter.findLabel Samples.glShortSegment (Samples.account [])) =
    Ok (Some {| getName := "gitlab.eclipse.org/eclipse/proj" |}).
Proof. split; vm_compute; reflexivity. Qed.

(** A segment is appended exactly when its trimmed text has more than one
    code unit. *)
Lemma projectLabel_snoc segs seg :
  GitLabFilter.projectLabel (segs ++ [seg]) =
    if Nat.ltb 1 (String.length (trim seg))
    then GitLabFilter.projectLabel segs ++ "/" ++ trim seg
    else GitLabFilter.projectLabel segs.
Proof. unfold GitLabFilter.projectLabel. rewrite fold_left_app. reflexivity. Qed.

(** Without the header the root label alone is resolved. *)
Lemma gitlab_missing_header m acct :
  exec GitLabFilter.reProjectPath (getRawContent m) = None ->
  GitLabFilter.findLabel m acct = hierarchy "gitlab.eclipse.org" acct.
Proof. intros H. unfold GitLabFilter.findLabel. rewrite H. reflexivity. Qed.

(** ** Mailing lists: the sender of a bulk relay *)

Section Texts.
Variable f : flags.

Lemma sameText_split p1 : forall p2 s,
  sameText f (p1 ++ p2) s = true ->
  exists s1 s2, s = s1 ++ s2 /\ sameText f p1 s1 = true /\ sameText f p2 s2 = true.
Proof.
  induction p1 as [|p p1 IH]; intros p2 s H; cbn in H.
  - exists EmptyString, s. auto.
  - destruct s as [|c s]; [discriminate|].
    apply andb_true_iff in H. destruct H as [Hc H].
    destruct (IH _ _ H) as (s1 & s2 & -> & H1 & H2).
    exists (String c s1), s2. cbn. rewrite Hc, H1. auto.
Qed.

Lemma sameText_append p1 : forall p2 s1 s2,
  sameText f p1 s1 = true -> sameText f p2 s2 = true ->
  sameText f (p1 ++ p2) (s1 ++ s2) = true.
Proof.
  induction p1 as [|p p1 IH]; intros p2 s1 s2 H1 H2; destruct s1 as [|c s1];
    cbn in *; try discriminate; [exact H2|].
  apply andb_true_iff in H1. destruct H1 as [Hc H1].
  rewrite Hc. cbn. apply IH; assumption.
Qed.

Lemma sameText_nil s : sameText f EmptyString s = true -> s = EmptyString.
Proof. destruct s; [reflexivity|discriminate]. Qed.

Lemma sameText_cons p pat s :
  sameText f (String p pat) s = true ->
  exists c s', s = String c s' /\ charMatches f p c = true /\ sameText f pat s' = true.
Proof.
  destruct s as [|c s]; [discriminate|]. cbn. intros H.
  apply andb_true_iff in H. destruct H. eauto.
Qed.

Lemma Matches_seq_inv r1 r2 prev s c0 c2 :
  Matches f (RSeq r1 r2) prev s c0 c2 ->
  exists s1 s2 c1,
    s = s1 ++ s2 /\ Matches f r1 prev s1 c0 c1 /\
    Matches f r2 (lastOf prev s1) s2 c1 c2.
Proof. inversion 1; subst. eauto 7. Qed.

Lemma Matches_char_inv p prev s c0 c1 :
  Matches f (RChar p) prev s c0 c1 ->
  exists c, s = String c EmptyString /\ charMatches f p c = true /\ c1 = c0.
Proof. inversion 1; subst. eauto. Qed.

Lemma Matches_set_inv cs prev s c0 c1 :
  Matches f (RSet cs) prev s c0 c1 ->
  exists c, s = String c EmptyString /\ cs c = true /\ c1 = c0.
Proof. inversion 1; subst. eauto. Qed.

Lemma Matches_bol_inv prev s c0 c1 :
  Matches f RBol prev s c0 c1 ->
  s = EmptyString /\ atLineStart f prev = true /\ c1 = c0.
Proof. inversion 1; subst. auto. Qed.

Lemma Matches_star_inv cs prev s c0 c1 :
  Matches f (RStar cs) prev s c0 c1 -> forallChars cs s = true /\ c1 = c0.
Proof. inversion 1; subst. auto. Qed.

Lemma Matches_group_inv n r prev s c0 c2 :
  Matches f (RGroup n r) prev s c0 c2 ->
  exists c1, Matches f r prev s c0 c1 /\ c2 = setCapture n s c1.
Proof. inversion 1; subst. eauto. Qed.

Lemma Matches_opt_inv r prev s c0 c1 :
  Matches f (ROpt r) prev s c0 c1 ->
  (s = EmptyString /\ c1 = c0) \/ Matches f r prev s c0 c1.
Proof. inversion 1; subst; auto. Qed.

(** A literal text matches the texts that agree with it under the flags,
    and sets no capture. *)
Lemma Matches_str t : forall prev s c0 c1,
  Matches f (str t) prev s c0 c1 -> sameText f t s = true /\ c1 = c0.
Proof.
  induction t as [|p t IH]; intros prev s c0 c1 H.
  - cbn in H. apply Matches_star_inv in H. destruct H as [H ->].
    split; [|reflexivity]. destruct s; [reflexivity|discriminate].
  - destruct t as [|q t].
    + cbn in H. apply Matches_char_inv in H. destruct H as (c & -> & Hc & ->).
      cbn. rewrite Hc. auto.
    + change (str (String p (String q t)))
        with (RSeq (RChar p) (str (String q t))) in H.
      apply Matches_seq_inv in H. destruct H as (s1 & s2 & c' & -> & M1 & M2).
      apply Matches_char_inv in M1. destruct M1 as (c & -> & Hc & ->).
      destruct (IH _ _ _ _ M2) as [Ht ->].
      split; [|reflexivity].
      change (sameText f (String p (String q t)) (String c EmptyString ++ s2))
        with (charMatches f p c && sameText f (String q t) s2).
      rewrite Hc, Ht. reflexivity.
Qed.

End Texts.

Ltac by_cases_on_char c :=
  destruct c as [[] [] [] [] [] [] [] []]; vm_compute;
  intros H; solve [reflexivity | discriminate H].

Lemma charMatches_lt c : charMatches flags_mi "<" c = true -> c = "<"%char.
Proof. by_cases_on_char c. Qed.

Lemma charMatches_at c : charMatches flags_mi "@" c = true -> c = "@"%char.
Proof. by_cases_on_char c. Qed.

Lemma charMatches_gt c : charMatches flags_mi ">" c = true -> c = ">"%char.
Proof. by_cases_on_char c. Qed.

Ltac invert_matches :=
  repeat match goal with
    | H : Matches _ (str _) _ _ _ _ |- _ =>
        apply Matches_str in H; destruct H as [H ?]; subst
    | H : Matches _ (RSeq _ _) _ _ _ _ |- _ =>
        apply Matches_seq_inv in H; destruct H as (? & ? & ? & ? & ? & ?); subst
    | H : Matches _ RBol _ _ _ _ |- _ =>
        apply Matches_bol_inv in H; destruct H as (? & ? & ?); subst
    | H : Matches _ (RChar _) _ _ _ _ |- _ =>
        apply Matches_char_inv in H; destruct H as (? & ? & ? & ?); subst
    | H : Matches _ (RSet _) _ _ _ _ |- _ =>
        apply Matches_set_inv in H; destruct H as (? & ? & ? & ?); subst
    | H : Matches _ (RStar _) _ _ _ _ |- _ =>
        apply Matches_star_inv in H; destruct H as (? & ?); subst
    | H : Matches _ (RGroup _ _) _ _ _ _ |- _ =>
        apply Matches_group_inv in H; destruct H as (? & ? & ?); subst
    | H : Matches _ (ROpt _) _ _ _ _ |- _ =>
        apply Matches_opt_inv in H; destruct H as [(? & ?)|H]; subst
    end.

Ltac normalize_appends :=
  repeat first [rewrite append_assoc | progress cbn [append]].

(** A match of the From pattern is the text of [fromPatternText]: from
    the start of a From line up to a bracketed address at eclipse.org or
    eclipse-foundation.org, on that line or on a later one; group 1 is the
    local part. *)
Lemma reFrom_sound raw caps :
  exec MailmanFilter.reFrom raw = Some caps ->
  exists local, nth 1 caps None = Some local /\ fromPatternText raw local.
Proof.
  unfold exec. intros H.
  destruct (searchFrom_sound _ _ _ _ _ H) as (pre & s1 & s2 & c1 & -> & M & ->).
  clear H.
  change (repeat None (S (groups (source MailmanFilter.reFrom))))
    with [@None string; None; None] in M.
  cbn [MailmanFilter.reFrom source reFlags seq] in M.
  invert_matches;
    match goal with
    | H : sameText _ "@eclipse" ?x = true |- _ =>
        apply sameText_cons in H; destruct H as (a & e & -> & Ha & He);
        apply charMatches_at in Ha; subst a
    end;
    match goal with
    | H : sameText _ ".org>" ?x = true |- _ =>
        apply (sameText_split flags_mi ".org" ">") in H;
        destruct H as (o & g & -> & Ho & Hg);
        apply sameText_cons in Hg; destruct Hg as (c & g' & -> & Hc & Hg);
        apply sameText_nil in Hg; subst g';
        apply charMatches_gt in Hc; subst c
    end;
    match goal with
    | H : charMatches _ "<" ?x = true |- _ => apply charMatches_lt in H; subst x
    end.
  - match goal with
    | |- exists _, nth 1 (setCapture 0 _ (setCapture 1 ?l _)) _ = _ /\ _ =>
        exists l; split; [reflexivity|]
    end.
    match goal with
    | H1 : sameText _ "From:" ?hdr = true,
      H2 : forallChars (oneOf _) ?sp = true,
      H3 : forallChars (noneOf ["<"%char]) ?nm = true |- _ =>
        exists pre, hdr, sp, nm, (e ++ o), s2
    end.
    repeat split; try assumption.
    + normalize_appends. reflexivity.
    + left. apply (sameText_append flags_mi "eclipse" ".org"); assumption.
  - match goal with
    | |- exists _, nth 1 (setCapture 0 _ (setCapture 2 _ (setCapture 1 ?l _))) _ = _ /\ _ =>
        exists l; split; [reflexivity|]
    end.
    match goal with
    | H1 : sameText _ "From:" ?hdr = true,
      H2 : forallChars (oneOf _) ?sp = true,
      H3 : forallChars (noneOf ["<"%char]) ?nm = true,
      H4 : sameText _ "-foundation" ?opt = true |- _ =>
        exists pre, hdr, sp, nm, (e ++ opt ++ o), s2
    end.
    repeat split; try assumption.
    + normalize_appends. reflexivity.
    + right. apply (sameText_append flags_mi "eclipse" "-foundation.org"); [assumption|].
      apply (sameText_append flags_mi "-foundation" ".org"); assumption.
Qed.

(** ** C10: the fallback label of a bulk relay *)

Lemma mailman_fallback_branch m acct :
  hasListId (getRawContent m) = false ->
  isBulkRelay (getRawContent m) = true ->
  MailmanFilter.findLabel m acct =
    match option_map trim (group 1 (exec MailmanFilter.reFrom (getRawContent m))) with
    | Some (String c fromName) =>
        hierarchy ("Eclipse Lists/HubSpot Lists/" ++ String c fromName) acct
    | _ =>
        (Ok None, acct,
         [Console LogWarn
            [("Uknown sender of message " ++ quoted (getSubject m)
                ++ " on " ++ getDate m)%string]])
    end.
Proof.
  unfold hasListId, isBulkRelay, MailmanFilter.findLabel. intros HL HB.
  assert (E : negb (truthyOpt (group 1 (exec MailmanFilter.reHubspot (getRawContent m))))
              && negb (truthyOpt (group 1 (exec MailmanFilter.reMailChimp (getRawContent m))))
              && negb (truthyOpt (group 1 (exec MailmanFilter.reJenkins (getRawContent m))))
              && negb (truthyOpt (group 1 (exec MailmanFilter.reGCal (getRawContent m))))
              = false).
  { rewrite <- !negb_orb, HB. reflexivity. }
  rewrite E.
  destruct (option_map trim (group 1 (exec MailmanFilter.reListId (getRawContent m))))
    as [[|c l]|]; [|discriminate|];
    destruct (option_map trim (group 1 (exec MailmanFilter.reFrom (getRawContent m))))
      as [[|c' l']|]; reflexivity.
Qed.

(** What the fallback branch does for every message: without a list id
    and with one of the four bulk-relay tests accepted, a label is returned
    only when the raw content holds the text of the From pattern, and the
    path resolved is then the fallback path with the trimmed local part;
    when the raw content holds no such text the result is null, the account
    is untouched and the only event is the warning about the sender. *)
Lemma mailman_fallback_pattern m acct :
  hasListId (getRawContent m) = false ->
  isBulkRelay (getRawContent m) = true ->
  (forall l acct' ev,
      MailmanFilter.findLabel m acct = (Ok (Some l), acct', ev) ->
      exists local,
        fromPatternText (getRawContent m) local /\
        MailmanFilter.findLabel m acct =
          hierarchy ("Eclipse Lists/HubSpot Lists/" ++ trim local) acct) /\
  ((forall local, ~ fromPatternText (getRawContent m) local) ->
   MailmanFilter.findLabel m acct =
     (Ok None, acct,
      [Console LogWarn
         [("Uknown sender of message " ++ quoted (getSubject m)
             ++ " on " ++ getDate m)%string]])).
Proof.
  intros HL HB. rewrite (mailman_fallback_branch m acct HL HB).
  destruct (exec MailmanFilter.reFrom (getRawContent m)) as [caps|] eqn:E.
  - destruct (reFrom_sound _ _ E) as (local & Hg & Hfrom).
    cbn [group]. rewrite Hg. cbn [option_map].
    split.
    + intros l acct' ev Hr. exists local. split; [exact Hfrom|].
      destruct (trim local); [discriminate|reflexivity].
    + intros N. exfalso. exact (N local Hfrom).
  - cbn [group option_map]. split; [discriminate|reflexivity].
Qed.

(** C10, at the failing input: a MailChimp message without a list id whose
    From header reads [a@example.org] and whose next header reads
    [To: Dev <dev@eclipse.org>].  The From pattern has no opening angle
    bracket to stop at on the From line; its class of code units other than
    that bracket takes the rest of the line and the line end as well, and
    the bracketed address it then reads is the one of the To header.
    Group 1 is [dev], and on every account the message resolves the
    fallback path [Eclipse Lists/HubSpot Lists/dev]: on the sample account
    the label is returned and no warning is logged, although the sender is
    at example.org. *)
Theorem mailman_recipient_taken_as_sender :
  hasListId (getRawContent MoreSamples.mcSenderElsewhere) = false /\
  isBulkRelay (getRawContent MoreSamples.mcSenderElsewhere) = true /\
  headerValueSkippingSpaces "From:" (getRawContent MoreSamples.mcSenderElsewhere)
    = Some "a@example.org" /\
  exec MailmanFilter.reFrom (getRawContent MoreSamples.mcSenderElsewhere)
    = Some [Some ("From: a@example.org" ++ Samples.nl ++ "To: Dev <dev@eclipse.org>");
            Some "dev"; None] /\
  (forall acct,
      MailmanFilter.findLabel MoreSamples.mcSenderElsewhere acct =
        hierarchy "Eclipse Lists/HubSpot Lists/dev" acct) /\
  outcome (MailmanFilter.findLabel MoreSamples.mcSenderElsewhere (Samples.account []))
    = Ok (Some {| getName := "Eclipse Lists/HubSpot Lists/dev" |}) /\
  events (MailmanFilter.findLabel MoreSamples.mcSenderElsewhere (Samples.account []))
    = [CreateLabel "Eclipse Lists";
       CreateLabel "Eclipse Lists/HubSpot Lists";
       CreateLabel "Eclipse Lists/HubSpot Lists/dev"].
Proof.
  repeat split; vm_compute; reflexivity.
Qed.

(** With the address of the sender in angle brackets the pattern stays on
    the From line: the foundation's newsletter gets the fallback label, the
    one from elsewhere gets none and a warning. *)
Example mailman_foundation :
  outcome (MailmanFilter.findLabel Samples.mcFoundation (Samples.account [])) =
    Ok (Some {| getName := "Eclipse Lists/HubSpot Lists/news" |}).
Proof. vm_compute. reflexivity. Qed.

Example mailman_elsewhere :
  MailmanFilter.findLabel Samples.mcElsewhere (Samples.account []) =
    (Ok None, Samples.account [],
     [Console LogWarn
        [("Uknown sender of message " ++ quoted "newsletter"
            ++ " on Mon Nov 02 2026")%string]]).
Proof. vm_compute. reflexivity. Qed.

(** ** The filters of the script never touch a thread in [findLabels] *)

Section Quiet.

Lemma quiet_ret {A} (a : A) : quiet (ret a).
Proof. intros acct. reflexivity. Qed.

Lemma quiet_throw {A} e : quiet (@throw A e).
Proof. intros acct. reflexivity. Qed.

Lemma quiet_console lvl args : quiet (emit (Console lvl args)).
Proof. intros acct. reflexivity. Qed.

Lemma quiet_bind {A B} (m : M A) (k : A -> M B) :
  quiet m -> (forall a, quiet (k a)) -> quiet (bind m k).
Proof.
  intros Hm Hk acct. unfold bind. specialize (Hm acct).
  destruct (m acct) as [[[a|e] a1] e1].
  - specialize (Hk a a1). destruct (k a a1) as [[r a2] e2].
    unfold events in *; cbn [snd] in *.
    rewrite threadMutations_app, Hm, Hk. reflexivity.
  - exact Hm.
Qed.

Lemma quiet_tryCatch {A} (m : M A) h :
  quiet m -> (forall e, quiet (h e)) -> quiet (tryCatch m h).
Proof.
  intros Hm Hh acct. unfold tryCatch. specialize (Hm acct).
  destruct (m acct) as [[[a|e] a1] e1].
  - exact Hm.
  - specialize (Hh e a1). destruct (h e a1) as [[r a2] e2].
    unfold events in *; cbn [snd] in *.
    rewrite threadMutations_app, Hm, Hh. reflexivity.
Qed.

Lemma quiet_mapM {A B} (g : A -> M B) l :
  (forall x, quiet (g x)) -> quiet (mapM g l).
Proof.
  intros Hg. induction l as [|x l IH]; cbn [mapM]; [apply quiet_ret|].
  apply quiet_bind; [apply Hg|]. intros y.
  apply quiet_bind; [exact IH|]. intros ys. apply quiet_ret.
Qed.

Lemma quiet_reduceM {A B} (g : B -> A -> M B) l :
  (forall b x, quiet (g b x)) -> forall acc, quiet (reduceM g l acc).
Proof.
  intros Hg. induction l as [|x l IH]; intros acc; cbn [reduceM]; [apply quiet_ret|].
  apply quiet_bind; [apply Hg|]. intros y. apply IH.
Qed.

Lemma quiet_getOrCreateLabel labelStr : quiet (_getOrCreateLabel labelStr).
Proof.
  unfold _getOrCreateLabel. apply quiet_bind.
  - intros acct. reflexivity.
  - intros [l|]; [apply quiet_ret|].
    apply quiet_tryCatch.
    + intros acct. unfold createLabel.
      destruct (createLabelError acct (userLabels acct) (sanitize labelStr));
        reflexivity.
    + intros e. apply quiet_bind; [apply quiet_console|]. intros _. apply quiet_throw.
Qed.

Lemma quiet_hierarchy labelName separator :
  quiet (_getOrCreateLabelHierarchy labelName separator).
Proof.
  unfold _getOrCreateLabelHierarchy. apply quiet_reduceM.
  intros [cl|] label; unfold hierarchyStep;
    (apply quiet_bind; [apply quiet_getOrCreateLabel|intros l; apply quiet_ret]).
Qed.

Ltac quiet_cases :=
  repeat match goal with
    | |- quiet (bind _ _) => apply quiet_bind; [|intros ?]
    | |- quiet (hierarchy _) => apply quiet_hierarchy
    | |- quiet (console_warn _) => apply quiet_console
    | |- quiet (console_error _) => apply quiet_console
    | |- quiet (ret _) => apply quiet_ret
    | |- quiet (throw _) => apply quiet_throw
    | |- quiet (match ?x with _ => _ end) => destruct x
    | |- quiet (if ?x then _ else _) => destruct x
    end.

Lemma quiet_mailman m : quiet (MailmanFilter.findLabel m).
Proof. unfold MailmanFilter.findLabel. quiet_cases. Qed.

Lemma quiet_github m : quiet (GitHubFilter.findLabel m).
Proof. unfold GitHubFilter.findLabel. quiet_cases. Qed.

Lemma quiet_gitlab m : quiet (GitLabFilter.findLabel m).
Proof. unfold GitLabFilter.findLabel. quiet_cases. Qed.

Lemma quiet_bugzilla m : quiet (BugzillaFilter.findLabel m).
Proof.
  unfold BugzillaFilter.findLabel, BugzillaFilter._processMatch. quiet_cases.
Qed.

End Quiet.

(** The filters that [main] runs. *)
Lemma script_findLabels_quiet F thread :
  In F (map (fun mk => mk 16)
          [GitHubFilter.filter; GitLabFilter.filter;
           BugzillaFilter.filter; MailmanFilter.filter]) ->
  quiet (findLabels F thread).
Proof.
  cbn [map In]. intros [<-|[<-|[<-|[<-|[]]]]]; cbn [findLabels];
    apply quiet_mapM; intros m;
    [apply quiet_github|apply quiet_gitlab|apply quiet_bugzilla|apply quiet_mailman].
Qed.

(** For the filters of the script, a thread without labels sees no thread
    operation at all. *)
Corollary script_no_labels_untouched F thread acct found :
  In F (map (fun mk => mk 16)
          [GitHubFilter.filter; GitLabFilter.filter;
           BugzillaFilter.filter; MailmanFilter.filter]) ->
  outcome (findLabels F thread acct) = Ok found ->
  _uniqLabels found = [] ->
  threadMutations (events (processThread F thread acct)) = [].
Proof.
  intros HF H U.
  rewrite (processThread_ok F thread acct found H), U.
  unfold events at 1; cbn [snd]. rewrite threadMutations_app.
  rewrite (script_findLabels_quiet F thread HF acct). reflexivity.
Qed.

(** ** Groups that always take part in a match

    The script reads [listId[1]], [url[1]] and [match[2]] without a test;
    these groups are set by every match, so the reads never meet
    [undefined]. *)

Lemma mailman_listId_needs_header raw :
  hasListId raw = true -> hasHeader raw "List-ID: ".
Proof.
  unfold hasListId, exec. intros H.
  destruct (searchFrom _ _ None raw) as [caps|] eqn:E; [|discriminate].
  destruct (searchFrom_sound _ _ _ _ _ E) as (pre & s1 & s2 & c1 & -> & M & ->).
  cbn [MailmanFilter.reListId source reFlags seq] in M.
  invert_matches.
  match goal with
  | H1 : sameText _ "List-ID: " ?hdr = true |- _ =>
      exists pre, hdr; eexists; repeat split; [|eassumption..]
  end.
  normalize_appends. reflexivity.
Qed.

(** A message that lacks a List-ID header has no list id for the mailing
    list filter. *)
Lemma lacking_listId_header raw :
  ~ hasHeader raw "List-ID: " -> hasListId raw = false.
Proof.
  intros N. destruct (hasListId raw) eqn:E; [|reflexivity].
  exfalso. apply N. apply mailman_listId_needs_header. exact E.
Qed.

Lemma github_listId_defined raw caps :
  exec GitHubFilter.reListId raw = Some caps ->
  exists whole listId1, caps = [Some whole; Some listId1].
Proof.
  unfold exec. intros H.
  destruct (searchFrom_sound _ _ _ _ _ H) as (pre & s1 & s2 & c1 & -> & M & ->).
  change (repeat None (S (groups (source GitHubFilter.reListId))))
    with [@None string; None] in M.
  cbn [GitHubFilter.reListId source reFlags seq] in M.
  invert_matches. cbn [setCapture]. eauto.
Qed.

Lemma bugzilla_url_defined raw caps :
  exec BugzillaFilter.reURL raw = Some caps ->
  exists whole url1, caps = [Some whole; Some url1].
Proof.
  unfold exec. intros H.
  destruct (searchFrom_sound _ _ _ _ _ H) as (pre & s1 & s2 & c1 & -> & M & ->).
  change (repeat None (S (groups (source BugzillaFilter.reURL))))
    with [@None string; None] in M.
  cbn [BugzillaFilter.reURL source reFlags seq] in M.
  invert_matches. cbn [setCapture]. eauto.
Qed.

Lemma bugzilla_value_defined header raw caps :
  searchFrom flags_mi (seq ([RBol; str header] ++ BugzillaFilter.encodedValue)%list)
             None raw = Some caps ->
  exists whole wrapper value closing,
    caps = [Some whole; wrapper; Some value; closing].
Proof.
  intros H.
  destruct (searchFrom_sound _ _ _ _ _ H) as (pre & s1 & s2 & c1 & -> & M & ->).
  assert (G : groups (seq ([RBol; str header] ++ BugzillaFilter.encodedValue)%list) = 3).
  { cbn [app BugzillaFilter.encodedValue seq groups].
    assert (G0 : forall t, groups (str t) = 0).
    { induction t as [|c [|d t] IH]; [reflexivity..|].
      change (str (String c (String d t))) with (RSeq (RChar c) (str (String d t))).
      cbn [groups]. rewrite IH. reflexivity. }
    rewrite !G0. reflexivity. }
  rewrite G in M. cbn [repeat] in M.
  cbn [app BugzillaFilter.encodedValue seq] in M.
  invert_matches; cbn [setCapture]; eauto.
Qed.

(** ** GitLab: the project label in closed form *)

Lemma fold_projectLabel segs : forall acc,
  fold_left
    (fun acc pathElement =>
       if Nat.ltb 1 (String.length (trim pathElement))
       then acc ++ "/" ++ trim pathElement
       else acc)
    segs acc
  = acc ++ String.concat EmptyString
             (map (fun s => "/" ++ trim s)
                  (List.filter (fun s => Nat.ltb 1 (String.length (trim s))) segs)).
Proof.
  induction segs as [|seg segs IH]; intros acc; cbn [fold_left List.filter map].
  - cbn. rewrite append_nil_r. reflexivity.
  - rewrite IH. destruct (Nat.ltb 1 (String.length (trim seg))); [|reflexivity].
    cbn [map]. rewrite append_assoc. f_equal.
    destruct (map _ (List.filter _ segs)) as [|x xs] eqn:E.
    + cbn. rewrite append_nil_r. reflexivity.
    + change (String.concat EmptyString (("/" ++ trim seg) :: x :: xs))
        with (("/" ++ trim seg) ++ EmptyString ++ String.concat EmptyString (x :: xs)).
      reflexivity.
Qed.

(** The label path is the root followed by the trimmed segments that are
    longer than one code unit, each after a slash. *)
Lemma projectLabel_closed segs :
  GitLabFilter.projectLabel segs =
    GitLabFilter.rootLabel ++
    String.concat EmptyString
      (map (fun s => "/" ++ trim s)
           (List.filter (fun s => Nat.ltb 1 (String.length (trim s))) segs)).
Proof. apply fold_projectLabel. Qed.

(** * Further properties of the script *)

(** ** Header patterns as a scan of the lines *)

Section HeaderScan.
Variable f : flags.

Lemma take_drop n : forall s : string, take n s ++ drop n s = s.
Proof.
  induction n as [|n IH]; intros [|c s]; cbn; try reflexivity.
  rewrite IH. reflexivity.
Qed.

Lemma take_whole (a b s : string) :
  s = a ++ b -> take (String.length s - String.length b) s = a.
Proof. intros ->. apply take_append. Qed.

Lemma groups_str t : groups (str t) = 0.
Proof.
  induction t as [|c [|d t] IH]; [reflexivity..|].
  change (str (String c (String d t))) with (RSeq (RChar c) (str (String d t))).
  cbn [groups]. rewrite IH. reflexivity.
Qed.

(** A literal text is matched exactly when it stands at the position, and
    the matcher then goes on after it. *)
Lemma matchAt_str R t : forall prev s caps (k : cont R),
  matchAt f R (str t) prev s caps k =
    if prefixText f t s
    then k (lastOf prev (take (String.length t) s)) (drop (String.length t) s) caps
    else None.
Proof.
  induction t as [|p t IH]; intros prev s caps k.
  - cbn. destruct s; reflexivity.
  - destruct t as [|q t].
    + destruct s as [|c s]; cbn; [reflexivity|].
      destruct (charMatches f p c); cbn; [|reflexivity].
      destruct s; reflexivity.
    + change (str (String p (String q t)))
        with (RSeq (RChar p) (str (String q t))).
      destruct s as [|c s]; [reflexivity|].
      cbn [matchAt]. change (prefixText f (String p (String q t)) (String c s))
        with (charMatches f p c && prefixText f (String q t) s).
      destruct (charMatches f p c); [|reflexivity].
      rewrite IH. reflexivity.
Qed.

(** The star over the rest of a line never fails and takes the line to its
    end. *)
Lemma matchStar_line R cs prev (s : string) caps (k : cont R) x :
  k (lastOf prev (takeWhile cs s)) (dropWhile cs s) caps = Some x ->
  matchStar R cs prev s caps k = Some x.
Proof.
  intros H. rewrite <- (takeWhile_dropWhile cs s) at 1.
  apply matchStar_run;
    [apply forallChars_takeWhile|apply stopsAt_dropWhile|exact H].
Qed.

Lemma matchHere_header name prev s :
  matchHere f (RSeq RBol (RSeq (str name) (RGroup 1 (RStar dot)))) prev s =
    if atLineStart f prev && prefixText f name s
    then Some (headerMatch name s)
    else None.
Proof.
  unfold matchHere. cbn [matchAt groups]. rewrite groups_str. cbn [Nat.max repeat].
  destruct (atLineStart f prev); [|reflexivity]. cbn [andb].
  rewrite matchAt_str. destruct (prefixText f name s); [|reflexivity].
  apply matchStar_line.
  rewrite take_dropWhile. cbn [setCapture]. unfold headerMatch. do 3 f_equal.
  rewrite <- (take_drop (String.length name) s) at 1 3.
  rewrite <- (takeWhile_dropWhile dot (drop (String.length name) s)) at 1 3.
  rewrite <- append_assoc.
  rewrite !length_append.
  apply take_prefix. rewrite length_append. lia.
Qed.

Lemma matchHere_header_spaces name prev s :
  matchHere f (RSeq RBol (RSeq (str name)
                            (RSeq (RStar (oneOf [" "%char])) (RGroup 1 (RStar dot)))))
            prev s =
    if atLineStart f prev && prefixText f name s
    then Some (headerMatchSkippingSpaces name s)
    else None.
Proof.
  unfold matchHere. cbn [matchAt groups]. rewrite groups_str. cbn [Nat.max repeat].
  destruct (atLineStart f prev); [|reflexivity]. cbn [andb].
  rewrite matchAt_str. destruct (prefixText f name s); [|reflexivity].
  apply matchStar_line. apply matchStar_line.
  rewrite take_dropWhile. cbn [setCapture]. unfold headerMatchSkippingSpaces.
  do 3 f_equal.
  set (rest := drop (String.length name) s).
  assert (E : s = (take (String.length name) s
                     ++ takeWhile (oneOf [" "%char]) rest
                     ++ takeWhile dot (dropWhile (oneOf [" "%char]) rest))
                  ++ dropWhile dot (dropWhile (oneOf [" "%char]) rest)).
  { rewrite !append_assoc, !takeWhile_dropWhile. unfold rest.
    rewrite take_drop. reflexivity. }
  apply take_whole. exact E.
Qed.

Lemma searchFrom_header name s : forall prev,
  searchFrom f (RSeq RBol (RSeq (str name) (RGroup 1 (RStar dot)))) prev s =
    option_map (headerMatch name) (findLine f name prev s).
Proof.
  induction s as [|c s IH]; intros prev; cbn [searchFrom findLine];
    rewrite matchHere_header;
    destruct (atLineStart f prev && prefixText f name _); try reflexivity.
  apply IH.
Qed.

Lemma searchFrom_header_spaces name s : forall prev,
  searchFrom f (RSeq RBol (RSeq (str name)
                             (RSeq (RStar (oneOf [" "%char])) (RGroup 1 (RStar dot)))))
             prev s =
    option_map (headerMatchSkippingSpaces name) (findLine f name prev s).
Proof.
  induction s as [|c s IH]; intros prev; cbn [searchFrom findLine];
    rewrite matchHere_header_spaces;
    destruct (atLineStart f prev && prefixText f name _); try reflexivity.
  apply IH.
Qed.

End HeaderScan.

Lemma exec_github_reason raw :
  exec GitHubFilter.reReason raw =
    option_map (headerMatch "X-GitHub-Reason: ")
               (findLine flags_mi "X-GitHub-Reason: " None raw).
Proof. apply searchFrom_header. Qed.

Lemma exec_bugzilla_url raw :
  exec BugzillaFilter.reURL raw =
    option_map (headerMatch "X-Bugzilla-URL: ")
               (findLine flags_mi "X-Bugzilla-URL: " None raw).
Proof. apply searchFrom_header. Qed.

Lemma exec_gitlab_path raw :
  exec GitLabFilter.reProjectPath raw =
    option_map (headerMatchSkippingSpaces "X-GitLab-Project-Path:")
               (findLine flags_mi "X-GitLab-Project-Path:" None raw).
Proof. apply searchFrom_header_spaces. Qed.

Lemma exec_jenkins raw :
  exec MailmanFilter.reJenkins raw =
    option_map (headerMatchSkippingSpaces "X-Jenkins-Result:")
               (findLine flags_mi "X-Jenkins-Result:" None raw).
Proof. apply searchFrom_header_spaces. Qed.

(** The scan finds no line exactly when the raw content has no line that
    starts with the name. *)
Lemma prefixText_sameText f name : forall s,
  prefixText f name s = true <->
  exists hdr rest, s = hdr ++ rest /\ sameText f name hdr = true.
Proof.
  induction name as [|p name IH]; intros s; cbn [prefixText].
  - split; [intros _; exists EmptyString, s; auto|reflexivity].
  - destruct s as [|c s].
    + split; [discriminate|]. intros (hdr & rest & E & H).
      destruct hdr; cbn in *; discriminate.
    + rewrite andb_true_iff, IH. split.
      * intros (Hc & hdr & rest & -> & H). exists (String c hdr), rest.
        cbn. rewrite Hc, H. auto.
      * intros (hdr & rest & E & H). destruct hdr as [|c' hdr]; [discriminate|].
        cbn in E, H. inversion E; subst.
        apply andb_true_iff in H. destruct H as [Hc H]. eauto.
Qed.

Lemma findLine_hasHeader name raw :
  findLine flags_mi name None raw <> None <-> hasHeader raw name.
Proof.
  assert (G : forall s prev,
             findLine flags_mi name prev s <> None <->
             exists pre hdr post,
               s = pre ++ hdr ++ post /\
               atLineStart flags_mi (lastOf prev pre) = true /\
               sameText flags_mi name hdr = true).
  { induction s as [|c s IH]; intros prev; cbn [findLine].
    - destruct (atLineStart flags_mi prev && prefixText flags_mi name EmptyString) eqn:E.
      + apply andb_true_iff in E. destruct E as [E1 E2].
        apply prefixText_sameText in E2. destruct E2 as (hdr & rest & E2 & H).
        split; [intros _|discriminate].
        exists EmptyString, hdr, rest. auto.
      + split; [congruence|]. intros (pre & hdr & post & E1 & E2 & E3).
        destruct pre; [|discriminate]. cbn in E1, E2.
        assert (X : prefixText flags_mi name EmptyString = true)
          by (apply prefixText_sameText; eauto).
        rewrite E2, X in E. discriminate.
    - destruct (atLineStart flags_mi prev && prefixText flags_mi name (String c s)) eqn:E.
      + apply andb_true_iff in E. destruct E as [E1 E2].
        apply prefixText_sameText in E2. destruct E2 as (hdr & rest & E2 & H).
        split; [intros _|discriminate].
        exists EmptyString, hdr, rest. auto.
      + rewrite IH. split.
        * intros (pre & hdr & post & -> & E2 & E3).
          exists (String c pre), hdr, post. auto.
        * intros (pre & hdr & post & E1 & E2 & E3).
          destruct pre as [|c' pre].
          -- cbn in E1, E2.
             assert (X : prefixText flags_mi name (String c s) = true)
               by (apply prefixText_sameText; eauto).
             rewrite E2, X in E. discriminate.
          -- cbn in E1, E2. inversion E1; subst.
             exists pre, hdr, post. auto. }
  apply G.
Qed.

(** ** The discipline on the labels of the account *)

Section Discipline.

Lemma createdNames_app e1 e2 :
  createdNames (e1 ++ e2) = (createdNames e1 ++ createdNames e2)%list.
Proof.
  induction e1 as [|e e1 IH]; [reflexivity|].
  destruct e; cbn; rewrite ?IH; reflexivity.
Qed.

Lemma discipline_pure {A} (r : result A) ev :
  createdNames ev = [] -> labelDiscipline (fun acct => (r, acct, ev)).
Proof.
  intros E acct. unfold account, events; cbn [fst snd]. rewrite E, app_nil_r.
  repeat split; auto.
Qed.

Lemma discipline_ret {A} (a : A) : labelDiscipline (ret a).
Proof. apply discipline_pure. reflexivity. Qed.

Lemma discipline_throw {A} e : labelDiscipline (@throw A e).
Proof. apply discipline_pure. reflexivity. Qed.

Lemma discipline_emit e : isCreation e = false -> labelDiscipline (emit e).
Proof. intros H. apply discipline_pure. destruct e; try reflexivity. discriminate. Qed.

Lemma discipline_bind {A B} (m : M A) (k : A -> M B) :
  labelDiscipline m -> (forall a, labelDiscipline (k a)) -> labelDiscipline (bind m k).
Proof.
  intros Hm Hk acct. unfold bind. specialize (Hm acct).
  destruct (m acct) as [[[a|e] a1] e1]; [|exact Hm].
  specialize (Hk a a1). destruct (k a a1) as [[r a2] e2].
  unfold account, events in *; cbn [fst snd] in *.
  destruct Hm as (S1 & C1 & L1 & N1 & P1), Hk as (S2 & C2 & L2 & N2 & P2).
  rewrite createdNames_app.
  repeat split; try congruence.
  - rewrite L2, L1, app_assoc. reflexivity.
  - auto.
  - apply Forall_app. auto.
Qed.

Lemma discipline_tryCatch {A} (m : M A) h :
  labelDiscipline m -> (forall e, labelDiscipline (h e)) ->
  labelDiscipline (tryCatch m h).
Proof.
  intros Hm Hh acct. unfold tryCatch. specialize (Hm acct).
  destruct (m acct) as [[[a|e] a1] e1]; [exact Hm|].
  specialize (Hh e a1). destruct (h e a1) as [[r a2] e2].
  unfold account, events in *; cbn [fst snd] in *.
  destruct Hm as (S1 & C1 & L1 & N1 & P1), Hh as (S2 & C2 & L2 & N2 & P2).
  rewrite createdNames_app.
  repeat split; try congruence.
  - rewrite L2, L1, app_assoc. reflexivity.
  - auto.
  - apply Forall_app. auto.
Qed.

Lemma discipline_mapM {A B} (g : A -> M B) l :
  (forall x, labelDiscipline (g x)) -> labelDiscipline (mapM g l).
Proof.
  intros Hg. induction l as [|x l IH]; cbn [mapM]; [apply discipline_ret|].
  apply discipline_bind; [apply Hg|]. intros y.
  apply discipline_bind; [exact IH|]. intros ys. apply discipline_ret.
Qed.

Lemma discipline_reduceM {A B} (g : B -> A -> M B) l :
  (forall b x, labelDiscipline (g b x)) -> forall acc, labelDiscipline (reduceM g l acc).
Proof.
  intros Hg. induction l as [|x l IH]; intros acc; cbn [reduceM];
    [apply discipline_ret|].
  apply discipline_bind; [apply Hg|]. intros y. apply IH.
Qed.

(** A label is created only when the account has none of its name. *)
Lemma discipline_getOrCreateLabel labelStr : labelDiscipline (_getOrCreateLabel labelStr).
Proof.
  intros acct.
  unfold _getOrCreateLabel, bind, getUserLabelByName, tryCatch, createLabel, emit, throw.
  destruct (existsb (String.eqb (sanitize labelStr)) (userLabels acct)) eqn:E.
  - unfold account, events; cbn [fst snd createdNames]. rewrite app_nil_r.
    repeat split; auto.
  - destruct (createLabelError acct (userLabels acct) (sanitize labelStr)) as [e|];
      unfold account, events; cbn [fst snd app createdNames withLabels userLabels
                                     search createLabelError].
    + rewrite app_nil_r. repeat split; auto.
    + repeat split.
      * intros N. apply NoDup_app; [exact N|repeat constructor; intros []|].
        intros n Hn [<-|[]].
        assert (X : existsb (String.eqb (sanitize labelStr)) (userLabels acct) = true).
        { apply existsb_exists. exists (sanitize labelStr).
          split; [exact Hn|apply String.eqb_refl]. }
        congruence.
      * constructor; [apply sanitize_idem|constructor].
Qed.

Lemma discipline_hierarchy labelName separator :
  labelDiscipline (_getOrCreateLabelHierarchy labelName separator).
Proof.
  unfold _getOrCreateLabelHierarchy. apply discipline_reduceM.
  intros [cl|] label; unfold hierarchyStep;
    (apply discipline_bind;
     [apply discipline_getOrCreateLabel|intros l; apply discipline_ret]).
Qed.

End Discipline.

Ltac discipline_cases :=
  repeat match goal with
    | |- labelDiscipline (bind _ _) => apply discipline_bind; [|intros ?]
    | |- labelDiscipline (hierarchy _) => apply discipline_hierarchy
    | |- labelDiscipline (console_warn _) => apply discipline_emit; reflexivity
    | |- labelDiscipline (console_error _) => apply discipline_emit; reflexivity
    | |- labelDiscipline (console_info _) => apply discipline_emit; reflexivity
    | |- labelDiscipline (emit _) => apply discipline_emit; reflexivity
    | |- labelDiscipline (ret _) => apply discipline_ret
    | |- labelDiscipline (throw _) => apply discipline_throw
    | |- labelDiscipline (mapM _ _) => apply discipline_mapM; intros ?
    | |- labelDiscipline (match ?x with _ => _ end) => destruct x
    | |- labelDiscipline (if ?x then _ else _) => destruct x
    end.

Lemma discipline_findLabels F thread :
  In F (scriptFilters (searchMax F)) -> labelDiscipline (findLabels F thread).
Proof.
  unfold scriptFilters. cbn [In]. intros [E|[E|[E|[E|[]]]]]; rewrite <- E;
    cbn [findLabels]; apply discipline_mapM; intros m.
  - unfold GitHubFilter.findLabel. discipline_cases.
  - unfold GitLabFilter.findLabel. discipline_cases.
  - unfold BugzillaFilter.findLabel, BugzillaFilter._processMatch. discipline_cases.
  - unfold MailmanFilter.findLabel. discipline_cases.
Qed.

Lemma discipline_processThread F thread :
  labelDiscipline (findLabels F thread) -> labelDiscipline (processThread F thread).
Proof. intros H. unfold processThread. discipline_cases. exact H. Qed.

Lemma discipline_run F :
  (forall thread, labelDiscipline (findLabels F thread)) -> labelDiscipline (run F).
Proof.
  intros H. unfold run, runOn. apply discipline_bind.
  - intros acct. unfold GmailApp_search, account, events; cbn [fst snd createdNames].
    rewrite app_nil_r. repeat split; auto.
  - intros threads. discipline_cases. apply discipline_processThread. apply H.
Qed.

(** ** Resolving a label path: what the account holds afterwards *)

Section Ancestors.

Lemma split_slash_app pre : forall post,
  split "/" (pre ++ "/" ++ post) = (split "/" pre ++ split "/" post)%list.
Proof.
  unfold split. induction pre as [|c pre IH]; intros post.
  - cbn [append]. rewrite splitFrom_slash_cons. reflexivity.
  - change (String c pre ++ "/" ++ post) with (String c (pre ++ "/" ++ post)).
    rewrite !splitFrom_slash_cons, IH.
    destruct (Ascii.eqb c "/"); [reflexivity|].
    pose proof (splitFrom_slash_nonempty pre) as NE.
    destruct (splitFrom "/" 0 pre) as [|seg rest]; [congruence|reflexivity].
Qed.

Lemma reduceM_app {A B} (g : B -> A -> M B) l1 : forall l2 acc acct,
  reduceM g (l1 ++ l2) acc acct = bind (reduceM g l1 acc) (reduceM g l2) acct.
Proof.
  induction l1 as [|x l1 IH]; intros l2 acc acct.
  - cbn. unfold bind, ret. destruct (reduceM g l2 acc acct) as [[r a] e]. reflexivity.
  - cbn [app reduceM]. unfold bind at 1 2 3.
    destruct (g acc x acct) as [[[b|e] a1] e1]; [|reflexivity].
    rewrite IH. unfold bind.
    destruct (reduceM g l1 b a1) as [[[b'|e'] a2] e2]; [|reflexivity].
    destruct (reduceM g l2 b' a2) as [[r a3] e3].
    rewrite app_assoc. reflexivity.
Qed.

Lemma reduce_present segs : forall cur acct l acct' ev,
  reduceM hierarchyStep segs cur acct = (Ok (Some l), acct', ev) ->
  segs <> [] ->
  hasLabel acct' (getName l).
Proof.
  induction segs as [|seg segs IH]; intros cur acct l acct' ev H NE; [congruence|].
  cbn [reduceM] in H. unfold bind in H.
  destruct (hierarchyStep cur seg acct) as [[[r1|e] a1] e1] eqn:S1; [|discriminate].
  destruct (reduceM hierarchyStep segs r1 a1) as [[r2 a2] e2] eqn:S2.
  inversion H; subst.
  destruct (hierarchyStep_ok _ _ _ _ _ _ S1) as (name & -> & Hhas & _ & _).
  destruct segs as [|seg2 segs].
  - cbn in S2. inversion S2; subst. exact Hhas.
  - apply (IH _ _ _ _ _ S2). discriminate.
Qed.

Lemma hierarchy_present path acct r acct' ev :
  hierarchy path acct = (Ok r, acct', ev) -> hasLabel acct' (sanitize path).
Proof.
  intros H. pose proof (hierarchy_name _ _ _ _ _ H) as ->.
  unfold hierarchy, _getOrCreateLabelHierarchy in H.
  apply (reduce_present _ _ _ _ _ _ H). apply splitFrom_slash_nonempty.
Qed.

Lemma hierarchy_ancestor pre post acct r acct' ev :
  hierarchy (pre ++ "/" ++ post) acct = (Ok r, acct', ev) ->
  hasLabel acct' (sanitize pre).
Proof.
  unfold hierarchy, _getOrCreateLabelHierarchy.
  rewrite split_slash_app, reduceM_app. unfold bind.
  destruct (reduceM hierarchyStep (split "/" pre) None acct)
    as [[[r1|e] a1] e1] eqn:S1; [|discriminate].
  destruct (reduceM hierarchyStep (split "/" post) r1 a1) as [[r2 a2] e2] eqn:S2.
  intros H. inversion H; subst.
  destruct (reduce_again _ _ _ _ _ _ S2) as (Hmono & _).
  apply Hmono. exact (hierarchy_present pre acct r1 a1 e1 S1).
Qed.

End Ancestors.

(** X1: when resolving a label path returns, the label it returns is named
    by the path with every parenthesis turned into an underscore (it is
    never null), the account holds that label, and it holds a label for
    every ancestor: for every part of the path that ends before a slash. *)
Theorem hierarchy_resolves_path_and_ancestors path acct r acct' ev :
  _getOrCreateLabelHierarchy path "/" acct = (Ok r, acct', ev) ->
  r = Some {| getName := sanitize path |} /\
  hasLabel acct' (sanitize path) /\
  (forall pre post, path = pre ++ "/" ++ post -> hasLabel acct' (sanitize pre)).
Proof.
  intros H. split; [exact (hierarchy_name _ _ _ _ _ H)|].
  split; [exact (hierarchy_present _ _ _ _ _ H)|].
  intros pre post E. subst path. exact (hierarchy_ancestor _ _ _ _ _ _ H).
Qed.

Lemma hierarchy_resolves_path_and_ancestors_witness :
  Some {| getName := "Eclipse Bugs/Platform/UI _beta_" |} =
    Some {| getName := sanitize "Eclipse Bugs/Platform/UI (beta)" |} /\
  hasLabel (withLabels (Samples.account [])
              ["Eclipse Bugs"; "Eclipse Bugs/Platform";
               "Eclipse Bugs/Platform/UI _beta_"])
           (sanitize "Eclipse Bugs/Platform/UI (beta)") /\
  (forall pre post,
      "Eclipse Bugs/Platform/UI (beta)" = pre ++ "/" ++ post ->
      hasLabel (withLabels (Samples.account [])
                  ["Eclipse Bugs"; "Eclipse Bugs/Platform";
                   "Eclipse Bugs/Platform/UI _beta_"])
               (sanitize pre)).
Proof.
  apply (hierarchy_resolves_path_and_ancestors
           "Eclipse Bugs/Platform/UI (beta)" (Samples.account []) _ _
           [CreateLabel "Eclipse Bugs"; CreateLabel "Eclipse Bugs/Platform";
            CreateLabel "Eclipse Bugs/Platform/UI _beta_"]).
  reflexivity.
Defined.

(** X2: whatever its outcome (a label or an exception), resolving a label
    path leaves the search and the refusals of the account alone, appends
    to the user labels exactly the names of its [CreateLabel] events, in
    order, never makes a label name occur twice, and creates no name with a
    parenthesis. *)
Theorem hierarchy_label_discipline labelName separator acct :
  let o := _getOrCreateLabelHierarchy labelName separator acct in
  search (account o) = search acct /\
  createLabelError (account o) = createLabelError acct /\
  userLabels (account o) = (userLabels acct ++ createdNames (events o))%list /\
  (NoDup (userLabels acct) -> NoDup (userLabels (account o))) /\
  Forall (fun name => sanitize name = name) (createdNames (events o)).
Proof. exact (discipline_hierarchy labelName separator acct). Qed.

Section Failure.



End Failure.


Lemma discipline_main : labelDiscipline Main.main.
Proof.
  unfold Main.main.
  (apply discipline_bind;
   [|intros ?; apply discipline_bind;
     [|intros ?; apply discipline_bind; [|intros ?]]]);
    apply discipline_run; intros thread; apply discipline_findLabels;
    cbn; auto.
Qed.

(** X4: a whole run of [main], whatever its outcome, only appends to the
    user labels of the account the names of the labels it created, in
    order; it removes none, never makes a name occur twice, and creates no
    name with a parenthesis. *)
Theorem main_label_discipline acct :
  let o := Main.main acct in
  userLabels (account o) = (userLabels acct ++ createdNames (events o))%list /\
  (NoDup (userLabels acct) -> NoDup (userLabels (account o))) /\
  Forall (fun name => sanitize name = name) (createdNames (events o)).
Proof.
  cbv zeta. destruct (discipline_main acct) as (_ & _ & L & N & P). auto.
Qed.

(** ** [_uniqLabels] on labels that are already distinct *)

Lemma uniqSeen_distinct ls : forall seen,
  NoDup (map getName ls) ->
  (forall l, In l ls -> ~ In (getName l) seen) ->
  uniqSeen seen (map Some ls) = ls.
Proof.
  induction ls as [|l ls IH]; intros seen N D; [reflexivity|].
  cbn [map uniqSeen]. inversion N as [|? ? Hnot N']; subst.
  destruct (existsb (String.eqb (getName l)) seen) eqn:E.
  - exfalso. apply existsb_exists in E. destruct E as (x & Hx & Heq).
    apply String.eqb_eq in Heq. subst x. exact (D l (or_introl eq_refl) Hx).
  - f_equal. apply IH; [exact N'|].
    intros l' Hin [Heq|Hseen].
    + apply Hnot. rewrite Heq. apply in_map. exact Hin.
    + exact (D l' (or_intror Hin) Hseen).
Qed.

(** X5: labels without null entries whose names are pairwise different
    pass [_uniqLabels] unchanged: all are kept, in their order. *)
Theorem uniqLabels_keeps_distinct ls :
  NoDup (map getName ls) -> _uniqLabels (map Some ls) = ls.
Proof.
  intros N. rewrite _uniqLabels_uniqSeen. apply uniqSeen_distinct; [exact N|].
  intros l _ [].
Qed.

Lemma uniqLabels_keeps_distinct_witness :
  _uniqLabels
    (map Some [ {| getName := "GitHub/org/a" |}; {| getName := "GitHub/org/b" |};
                {| getName := "GitHub" |} ])
  = [ {| getName := "GitHub/org/a" |}; {| getName := "GitHub/org/b" |};
      {| getName := "GitHub" |} ].
Proof.
  apply (uniqLabels_keeps_distinct
           [ {| getName := "GitHub/org/a" |}; {| getName := "GitHub/org/b" |};
             {| getName := "GitHub" |} ]).
  repeat constructor; cbn; intuition discriminate.
Defined.

(** Deduplicating twice changes nothing more. *)
Corollary uniqLabels_idempotent found :
  _uniqLabels (map Some (_uniqLabels found)) = _uniqLabels found.
Proof.
  rewrite _uniqLabels_uniqSeen at 1.
  apply uniqSeen_distinct; [|intros l _ []].
  rewrite _uniqLabels_uniqSeen. apply uniqSeen_NoDup.
Qed.

(** ** The filters, by the header lines they read *)

(** X6: a GitHub message is important exactly when the first line that
    starts with [X-GitHub-Reason: ] (in any case) has, after trimming, a
    value that is not empty and is none of subscribed, team_mention and
    ci_activity; without such a line it is not important. *)
Theorem github_importance_by_header m :
  GitHubFilter.isImportantMessage m =
    match headerValue "X-GitHub-Reason: " (getRawContent m) with
    | Some value =>
        truthy (trim value) &&
        negb (existsb (String.eqb (trim value))
                      ["subscribed"; "team_mention"; "ci_activity"])
    | None => false
    end.
Proof.
  unfold GitHubFilter.isImportantMessage, headerValue.
  rewrite exec_github_reason.
  destruct (findLine flags_mi "X-GitHub-Reason: " None (getRawContent m)) as [line|];
    [|reflexivity].
  cbn [option_map group headerMatch nth].
  destruct (trim _); reflexivity.
Qed.



Lemma rootLabel_range url :
  In (BugzillaFilter._getRootLabel url)
     ["Eclipse Bugs"; "Polarsys Bugs"; "LocationTech Bugs"; "Foundation Bugs";
      "Unknown Bugzilla"].
Proof.
  unfold BugzillaFilter._getRootLabel, BugzillaFilter.rootLabels. cbn [find fst].
  repeat match goal with
         | |- context [if ?b then _ else _] => destruct b
         end; cbn; auto 10.
Qed.

Lemma rootLabel_clean url :
  sanitize (BugzillaFilter._getRootLabel url) = BugzillaFilter._getRootLabel url.
Proof.
  pose proof (rootLabel_range url) as H. cbn [In] in H.
  destruct H as [<-|[<-|[<-|[<-|[<-|[]]]]]]; reflexivity.
Qed.

Lemma hierarchy_under path rest acct r acct' ev :
  sanitize path = path ->
  hierarchy (path ++ rest) acct = (Ok r, acct', ev) ->
  r = Some {| getName := path ++ sanitize rest |}.
Proof.
  intros E H. apply hierarchy_name in H. rewrite sanitize_append, E in H. exact H.
Qed.

(** X8: when the first [X-Bugzilla-URL: ] line has the value [url], every
    label that [findLabels] returns for the message lies under the root
    label that [_getRootLabel] gives for [url]; the result is never null. *)
Theorem bugzilla_label_under_root m acct url :
  headerValue "X-Bugzilla-URL: " (getRawContent m) = Some url ->
  forall r acct' ev,
    BugzillaFilter.findLabel m acct = (Ok r, acct', ev) ->
    exists rest, r = Some {| getName := BugzillaFilter._getRootLabel url ++ rest |}.
Proof.
  unfold headerValue, BugzillaFilter.findLabel. rewrite exec_bugzilla_url.
  destruct (findLine flags_mi "X-Bugzilla-URL: " None (getRawContent m)) as [line|];
    [|discriminate].
  cbn [option_map headerMatch nth]. intros E. inversion E; subst url. clear E.
  intros r acct' ev. unfold bind.
  destruct (BugzillaFilter._processMatch _ acct) as [[[product|e] a1] e1];
    [|discriminate].
  destruct (BugzillaFilter._processMatch _ a1) as [[[component|e] a2] e2];
    [|discriminate].
  set (root := BugzillaFilter._getRootLabel _).
  assert (C : sanitize root = root) by apply rootLabel_clean.
  destruct product as [[|c p]|], component as [[|c' q]|];
    match goal with
    | |- context [console_warn ?msg a2] =>
        unfold console_warn, emit;
        destruct (hierarchy root a2) as [[r' a3] e3] eqn:H;
        intros X; inversion X; subst;
        exists EmptyString; rewrite append_nil_r;
        rewrite <- C; exact (hierarchy_name _ _ _ _ _ H)
    | |- _ =>
        destruct (hierarchy _ a2) as [[r' a3] e3] eqn:H;
        intros X; inversion X; subst;
        eexists; exact (hierarchy_under root _ _ _ _ _ C H)
    end.
Qed.

Lemma bugzilla_label_under_root_witness :
  exists rest,
    Some {| getName := "Eclipse Bugs/Platform/UI" |} =
    Some {| getName :=
              BugzillaFilter._getRootLabel "https://bugs.eclipse.org/bugs/" ++ rest |}.
Proof.
  apply (bugzilla_label_under_root Samples.bugComplete (Samples.account [])
           "https://bugs.eclipse.org/bugs/" ltac:(vm_compute; reflexivity)
           (Some {| getName := "Eclipse Bugs/Platform/UI" |})
           (withLabels (Samples.account [])
              ["Eclipse Bugs"; "Eclipse Bugs/Platform"; "Eclipse Bugs/Platform/UI"])
           [CreateLabel "Eclipse Bugs"; CreateLabel "Eclipse Bugs/Platform";
            CreateLabel "Eclipse Bugs/Platform/UI"]).
  vm_compute. reflexivity.
Defined.

Lemma gitlab_findLabel_path m acct :
  GitLabFilter.findLabel m acct =
    hierarchy
      (GitLabFilter.projectLabel
         match headerValueSkippingSpaces "X-GitLab-Project-Path:" (getRawContent m) with
         | Some value => split "/" value
         | None => []
         end)
      acct.
Proof.
  unfold GitLabFilter.findLabel, headerValueSkippingSpaces.
  rewrite exec_gitlab_path.
  destruct (findLine flags_mi "X-GitLab-Project-Path:" None (getRawContent m));
    reflexivity.
Qed.

Lemma gitlab_findLabel_under_root m acct r acct' ev :
  GitLabFilter.findLabel m acct = (Ok r, acct', ev) ->
  exists rest, r = Some {| getName := "gitlab.eclipse.org" ++ rest |}.
Proof.
  intros H. rewrite gitlab_findLabel_path, projectLabel_closed in H.
  eexists. exact (hierarchy_under GitLabFilter.rootLabel _ _ _ _ _ eq_refl H).
Qed.

(** X9: the label path of a GitLab message is the root followed by the
    segments of the value of the first [X-GitLab-Project-Path:] line, the
    spaces after the colon left out; without such a line it is the root
    alone.  The label returned is never null and lies under the root. *)
Theorem gitlab_label_by_header m acct :
  GitLabFilter.findLabel m acct =
    hierarchy
      (GitLabFilter.projectLabel
         match headerValueSkippingSpaces "X-GitLab-Project-Path:" (getRawContent m) with
         | Some value => split "/" value
         | None => []
         end)
      acct /\
  (forall r acct' ev,
      GitLabFilter.findLabel m acct = (Ok r, acct', ev) ->
      exists rest, r = Some {| getName := "gitlab.eclipse.org" ++ rest |}).
Proof.
  split; [apply gitlab_findLabel_path|].
  intros r acct' ev. apply gitlab_findLabel_under_root.
Qed.

Section ListId.

(** A match of the List-ID pattern of the mailing lists is the text of
    [listIdPatternText]; group 1 is the text before [.eclipse.org]. *)
Lemma reListId_sound raw caps :
  exec MailmanFilter.reListId raw = Some caps ->
  exists id, nth 1 caps None = Some id /\ listIdPatternText raw id.
Proof.
  unfold exec. intros H.
  destruct (searchFrom_sound _ _ _ _ _ H) as (pre & s1 & s2 & c1 & -> & M & ->).
  clear H.
  change (repeat None (S (groups (source MailmanFilter.reListId))))
    with [@None string; None] in M.
  cbn [MailmanFilter.reListId source reFlags seq] in M.
  invert_matches.
  match goal with
  | H : sameText _ ".eclipse.org>" ?x = true |- _ =>
      apply (sameText_split flags_mi ".eclipse.org" ">") in H;
      destruct H as (o & g & -> & Ho & Hg);
      apply sameText_cons in Hg; destruct Hg as (c & g' & -> & Hc & Hg);
      apply sameText_nil in Hg; subst g';
      apply charMatches_gt in Hc; subst c
  end.
  match goal with
  | H : charMatches _ "<" ?x = true |- _ => apply charMatches_lt in H; subst x
  end.
  match goal with
  | |- exists _, nth 1 (setCapture 0 _ (setCapture 1 ?l _)) _ = _ /\ _ =>
      exists l; split; [reflexivity|]
  end.
  match goal with
  | H1 : sameText _ "List-ID: " ?hdr = true,
    H2 : forallChars (noneOf ["<"%char]) ?nm = true |- _ =>
      exists pre, hdr, nm, o, s2
  end.
  repeat split; try assumption.
  normalize_appends. reflexivity.
Qed.

End ListId.

(** X10: a list id wins over everything else in the mailing-list filter.
    When the List-ID pattern yields a list id, that id is group 1 of the
    first match of the pattern; the raw content holds, from the start of a
    line, [List-ID: ], a text without an opening angle bracket and then
    [id.eclipse.org] in angle brackets, and the path resolved is
    [Eclipse Lists/] followed by the trimmed [id], whether or not the
    message also carries a bulk-relay marker.  The text before the bracket
    and the id may run over line ends: the bracketed text need not stand on
    the List-ID line itself. *)
Theorem mailman_list_label m acct :
  hasListId (getRawContent m) = true ->
  exists id,
    group 1 (exec MailmanFilter.reListId (getRawContent m)) = Some id /\
    listIdPatternText (getRawContent m) id /\
    trim id <> EmptyString /\
    MailmanFilter.findLabel m acct = hierarchy ("Eclipse Lists/" ++ trim id) acct.
Proof.
  unfold hasListId, MailmanFilter.findLabel. intros H.
  destruct (exec MailmanFilter.reListId (getRawContent m)) as [caps|] eqn:E;
    [|discriminate].
  destruct (reListId_sound _ _ E) as (id & Hid & Hline).
  cbn [group] in H |- *. rewrite Hid in H |- *. cbn [option_map] in H |- *.
  exists id. split; [reflexivity|]. split; [exact Hline|].
  destruct (trim id); [discriminate|]. split; [discriminate|reflexivity].
Qed.

(** The bracketed text of a later header is taken when the List-ID header
    has none of its own. *)
Example mailman_list_id_from_later_header :
  headerValue "List-ID: " (getRawContent MoreSamples.listIdUnbracketed) = Some "foo" /\
  group 1 (exec MailmanFilter.reListId (getRawContent MoreSamples.listIdUnbracketed))
    = Some "bar" /\
  outcome (MailmanFilter.findLabel MoreSamples.listIdUnbracketed (Samples.account []))
    = Ok (Some {| getName := "Eclipse Lists/bar" |}).
Proof. repeat split; vm_compute; reflexivity. Qed.

Ltac under_root :=
  match goal with
  | |- hierarchy ?p _ = (Ok (Some ?l), _, _) -> startsWith ?root _ =>
      let H := fresh in
      intros H;
      match p with
      | root ++ ?rest =>
          apply (hierarchy_under root) in H; [|reflexivity]
      | String _ _ =>
          apply (hierarchy_under root) in H; [|reflexivity]
      end;
      inversion H; eexists; reflexivity
  | |- _ -> _ => let H := fresh in intros H; cbv in H; discriminate H
  end.

(** X11: the labels of the mailing-list filter all lie under
    [Eclipse Lists/], those of the GitHub filter under [GitHub/]. *)
Theorem labels_under_filter_root m acct l acct' ev :
  (MailmanFilter.findLabel m acct = (Ok (Some l), acct', ev) ->
   startsWith "Eclipse Lists/" (getName l)) /\
  (GitHubFilter.findLabel m acct = (Ok (Some l), acct', ev) ->
   startsWith "GitHub/" (getName l)).
Proof.
  split.
  - unfold MailmanFilter.findLabel, MailmanFilter.root.
    destruct (option_map trim (group 1 (exec MailmanFilter.reListId _)))
      as [[|c id]|];
      try (change ("Eclipse Lists" ++ "/" ++ String c id)
             with ("Eclipse Lists/" ++ String c id); under_root);
      (destruct (negb _ && negb _ && negb _ && negb _); [under_root|];
       destruct (option_map trim (group 1 (exec MailmanFilter.reFrom _)))
         as [[|c' nm]|];
       try (change ("Eclipse Lists" ++ "/HubSpot Lists/" ++ String c' nm)
              with ("Eclipse Lists/" ++ ("HubSpot Lists/" ++ String c' nm));
            under_root);
       under_root).
  - unfold GitHubFilter.findLabel, GitHubFilter.root.
    destruct (exec GitHubFilter.reListId _) as [[|c0 [|[p|] caps]]|];
      try under_root.
    destruct (exec GitHubFilter.reOrg p) as [[|o0 [|o1 ocaps]]|];
      try under_root;
      destruct (exec GitHubFilter.reRepo p) as [[|r0 [|r1 rcaps]]|];
      try under_root.
    change ("GitHub" ++ "/" ++ GitHubFilter.segment o1 "unknown_org" ++ "/"
              ++ GitHubFilter.segment r1 "unknown_repo")
      with ("GitHub/" ++ (GitHubFilter.segment o1 "unknown_org" ++ "/"
                            ++ GitHubFilter.segment r1 "unknown_repo")).
    under_root.
Qed.

Lemma mailman_list_label_witness :
  exists id,
    group 1 (exec MailmanFilter.reListId (getRawContent MoreSamples.listWithMarker))
      = Some id /\
    listIdPatternText (getRawContent MoreSamples.listWithMarker) id /\
    trim id <> EmptyString /\
    MailmanFilter.findLabel MoreSamples.listWithMarker (Samples.account []) =
      hierarchy ("Eclipse Lists/" ++ trim id) (Samples.account []).
Proof.
  apply (mailman_list_label MoreSamples.listWithMarker (Samples.account [])).
  vm_compute. reflexivity.
Defined.


(** ** What a run does to threads *)

Section RunEvents.
Variable F : Filter.
Variable P : Event -> Prop.

Lemma processThread_events_Forall thread acct :
  Forall P (events (findLabels F thread acct)) ->
  P (noLabelsError thread) ->
  (forall labels, Forall P (labelEvents thread labels)) ->
  Forall P (routeEvents F thread) ->
  Forall P (events (processThread F thread acct)).
Proof.
  intros Hf He Hl Hr.
  destruct (findLabels F thread acct) as [[[found|e] a1] e1] eqn:E.
  - rewrite (processThread_ok F thread acct found) by (rewrite E; reflexivity).
    rewrite E. unfold events in *; cbn [snd] in *.
    apply Forall_app. split; [exact Hf|].
    destruct (_uniqLabels found) as [|l ls].
    + constructor; [exact He|constructor].
    + apply Forall_app. split; [apply Hl|exact Hr].
  - rewrite (processThread_threw F thread acct e a1 e1 E). exact Hf.
Qed.

Lemma runOn_events_Forall ts : forall acct,
  (forall t a, In t ts -> Forall P (events (processThread F t a))) ->
  Forall P (events (runOn F ts acct)).
Proof.
  induction ts as [|t ts IH]; intros acct H.
  - rewrite runOn_nil. constructor.
  - pose proof (H t acct (or_introl eq_refl)) as Ht.
    destruct (processThread F t acct) as [[[[]|e] a1] e1] eqn:E.
    + rewrite (runOn_cons_ok _ _ _ _ _ _ E). unfold events at 1; cbn [snd].
      apply Forall_app. split; [exact Ht|].
      apply IH. intros t' a Hin. apply H. right. exact Hin.
    + rewrite (runOn_cons_threw _ _ _ _ _ _ _ E). exact Ht.
Qed.

End RunEvents.

Lemma quiet_events {A} (m : M A) acct :
  quiet m -> Forall (fun e => isThreadMutation e = false) (events (m acct)).
Proof.
  intros Q. specialize (Q acct). unfold threadMutations in Q.
  induction (events (m acct)) as [|e ev IH]; [constructor|].
  cbn [List.filter] in Q. destruct (isThreadMutation e) eqn:E; [discriminate|].
  constructor; [exact E|apply IH; exact Q].
Qed.

Lemma quiet_scriptFilters n F thread :
  In F (scriptFilters n) -> quiet (findLabels F thread).
Proof.
  unfold scriptFilters. cbn [In]. intros [<-|[<-|[<-|[<-|[]]]]]; cbn [findLabels];
    apply quiet_mapM; intros m;
    [apply quiet_github|apply quiet_gitlab|apply quiet_bugzilla|apply quiet_mailman].
Qed.

(** X12: the mailing-list filter and the GitLab filter inherit
    [isImportantMessage] from the base class; a run of either never marks a
    thread important and never moves one to the inbox. *)
Theorem inherited_importance_never_promotes n acct :
  Forall (fun e => promotes e = false) (events (run (MailmanFilter.filter n) acct)) /\
  Forall (fun e => promotes e = false) (events (run (GitLabFilter.filter n) acct)).
Proof.
  assert (G : forall F, In F (scriptFilters n) ->
                        (forall msgs, existsb (isImportantMessage F) msgs = false) ->
                        Forall (fun e => promotes e = false) (events (run F acct))).
  { intros F HF Himp. rewrite run_unfold. apply runOn_events_Forall.
    intros t a _. apply processThread_events_Forall.
    - eapply Forall_impl; [|apply quiet_events, (quiet_scriptFilters n); exact HF].
      intros e He. destruct e; try reflexivity; discriminate.
    - reflexivity.
    - intros labels. induction labels as [|l ls IH]; [constructor|].
      cbn. repeat constructor. exact IH.
    - unfold routeEvents. rewrite Himp. repeat constructor. }
  assert (B : forall q msgs,
             existsb (isImportantMessage (base q n)) msgs = false).
  { intros q msgs. induction msgs as [|m ms IH]; [reflexivity|exact IH]. }
  split; apply G.
  - unfold scriptFilters. cbn [In]. auto 10.
  - apply B.
  - unfold scriptFilters. cbn [In]. auto 10.
  - apply B.
Qed.

(** X13: a run of a filter of the script touches only threads that the
    search returned: every event that changes a thread carries the id of
    one of them. *)
Theorem run_touches_found_threads_only n F acct e t :
  In F (scriptFilters n) ->
  In e (events (run F acct)) ->
  threadOf e = Some t ->
  exists thread,
    In thread (search acct (searchQuery F) 0 (searchMax F)) /\ getId thread = t.
Proof.
  intros HF He Ht.
  set (found := search acct (searchQuery F) 0 (searchMax F)).
  assert (G : Forall (fun e => forall t, threadOf e = Some t ->
                                         exists thread, In thread found /\ getId thread = t)
                     (events (run F acct))).
  { rewrite run_unfold. fold found. apply runOn_events_Forall.
    intros th a Hin.
    assert (Own : forall e0 t0, threadOf e0 = Some t0 -> t0 = getId th ->
                                exists thread, In thread found /\ getId thread = t0).
    { intros e0 t0 _ ->. exists th. auto. }
    apply processThread_events_Forall.
    - eapply Forall_impl; [|apply quiet_events, (quiet_scriptFilters n); exact HF].
      intros e0 He0 t0 H0. destruct e0; discriminate.
    - intros t0 H0. discriminate.
    - intros labels. induction labels as [|l ls IH]; [constructor|].
      cbn. constructor; [|constructor; [|exact IH]].
      + intros t0 H0. inversion H0; subst. exists th. auto.
      + intros t0 H0. discriminate.
    - unfold routeEvents. destruct (existsb _ _); repeat constructor;
        intros t0 H0; inversion H0; subst; try (exists th; auto). }
  rewrite Forall_forall in G. exact (G e He t Ht).
Qed.

Lemma run_touches_found_threads_only_witness :
  exists thread,
    In thread
       (search (Samples.account [MoreSamples.ghThread])
          (searchQuery (GitHubFilter.filter 16)) 0 (searchMax (GitHubFilter.filter 16)))
    /\ getId thread = "t".
Proof.
  apply (run_touches_found_threads_only 16 (GitHubFilter.filter 16)
           (Samples.account [MoreSamples.ghThread])
           (AddLabel "t" "GitHub/my org/my repo") "t").
  - cbn. auto.
  - vm_compute. auto 10.
  - reflexivity.
Defined.

(** ** GitLab threads are always labelled and archived *)

Lemma mapM_ok_Forall {A B} (g : A -> M B) (Q : B -> Prop) l :
  (forall x a y a' e, g x a = (Ok y, a', e) -> Q y) ->
  forall acct ys acct' ev,
    mapM g l acct = (Ok ys, acct', ev) ->
    Forall Q ys /\ List.length ys = List.length l.
Proof.
  intros Hg. induction l as [|x l IH]; intros acct ys acct' ev H.
  - cbn in H. inversion H; subst. split; [constructor|reflexivity].
  - cbn [mapM] in H. unfold bind in H.
    destruct (g x acct) as [[[y|e] a1] e1] eqn:G; [|discriminate].
    destruct (mapM g l a1) as [[[ys'|e] a2] e2] eqn:R; [|discriminate].
    cbn in H. inversion H; subst.
    destruct (IH _ _ _ _ R) as [HF HL].
    split; [constructor; [exact (Hg _ _ _ _ _ G)|exact HF]|cbn; rewrite HL; reflexivity].
Qed.

(** X14: a GitLab thread with at least one message, once [findLabels] has
    returned, always gets at least one label and is always marked
    unimportant and moved to the archive: it is never left as a thread
    without labels. *)
Theorem gitlab_thread_labelled_and_archived n thread acct found :
  getMessages thread <> [] ->
  outcome (findLabels (GitLabFilter.filter n) thread acct) = Ok found ->
  exists rest,
    events (processThread (GitLabFilter.filter n) thread acct) =
      (events (findLabels (GitLabFilter.filter n) thread acct) ++ rest)%list /\
    addedLabels (getId thread) rest <> [] /\
    routing rest = [MarkUnimportant (getId thread); MoveToArchive (getId thread)].
Proof.
  intros NE H.
  assert (U : _uniqLabels found <> []).
  { cbn [findLabels GitLabFilter.filter] in H. unfold GitLabFilter.findLabels in H.
    destruct (mapM GitLabFilter.findLabel (getMessages thread) acct)
      as [[[ys|e] a1] e1] eqn:R; [|discriminate].
    cbn in H. inversion H; subst ys.
    destruct (mapM_ok_Forall GitLabFilter.findLabel (fun y => y <> None)
                (getMessages thread)) with (acct := acct) (ys := found)
                                           (acct' := a1) (ev := e1)
      as [HF HL]; [|exact R|].
    { intros x a y a' e G.
      destruct (gitlab_findLabel_under_root _ _ _ _ _ G) as (rest & ->).
      discriminate. }
    destruct found as [|[l|] found'].
    - destruct (getMessages thread); [congruence|discriminate].
    - rewrite _uniqLabels_uniqSeen. cbn. discriminate.
    - inversion HF; congruence. }
  rewrite (processThread_ok _ thread acct found H).
  destruct (_uniqLabels found) as [|l ls] eqn:E; [congruence|].
  eexists. split; [reflexivity|].
  rewrite addedLabels_app, addedLabels_labelEvents, addedLabels_routeEvents.
  split; [discriminate|].
  unfold routing. rewrite filter_app.
  fold (routing (labelEvents thread (l :: ls))). rewrite routing_labelEvents.
  cbn [app]. fold (routing (routeEvents (GitLabFilter.filter n) thread)).
  rewrite routing_routeEvents.
  replace (existsb (isImportantMessage (GitLabFilter.filter n)) (getMessages thread))
    with false; [reflexivity|].
  symmetry. clear. generalize (getMessages thread).
  intros msgs. induction msgs as [|m ms IH]; [reflexivity|exact IH].
Qed.

Lemma gitlab_thread_labelled_and_archived_witness :
  exists rest,
    events (processThread (GitLabFilter.filter 16) MoreSamples.glThread (Samples.account []))
    = (events (findLabels (GitLabFilter.filter 16) MoreSamples.glThread (Samples.account []))
         ++ rest)%list /\
    addedLabels (getId MoreSamples.glThread) rest <> [] /\
    routing rest = [MarkUnimportant (getId MoreSamples.glThread);
                    MoveToArchive (getId MoreSamples.glThread)].
Proof.
  apply (gitlab_thread_labelled_and_archived 16 MoreSamples.glThread (Samples.account [])
           [Some {| getName := "gitlab.eclipse.org/eclipse/proj" |}]).
  - discriminate.
  - vm_compute. reflexivity.
Defined.

(** ** The base class *)

(** X15: a filter that keeps the [findLabels] of the base class does
    nothing on an empty search result, and otherwise throws on the first
    thread before any event: no thread is touched and no label created. *)
Theorem base_run_throws query n acct :
  run (base query n) acct =
    match search acct query 0 n with
    | [] => (Ok tt, acct, [])
    | _ :: _ => (Threw "You have to implement the method findLabels!", acct, [])
    end.
Proof.
  rewrite run_unfold. cbn [searchQuery searchMax base].
  destruct (search acct query 0 n) as [|t ts]; reflexivity.
Qed.

(** ** The root label of a Bugzilla URL *)

Lemma prefix_startsWith key : forall s,
  String.prefix key s = true <-> startsWith key s.
Proof.
  unfold startsWith.
  induction key as [|k key IH]; intros s.
  - destruct s; cbn; (split; [intros _; eexists; reflexivity|reflexivity]).
  - destruct s as [|c s]; cbn [String.prefix].
    + split; [discriminate|]. intros (rest & E). discriminate.
    + destruct (ascii_dec k c) as [<-|N].
      * rewrite IH. split; intros (rest & E); exists rest.
        -- cbn. rewrite E. reflexivity.
        -- cbn in E. inversion E. reflexivity.
      * split; [discriminate|]. intros (rest & E). cbn in E. inversion E. congruence.
Qed.

(** [includes] is the substring test. *)
Lemma includes_substring key : forall s,
  includes s key = true <-> substring key s.
Proof.
  unfold substring.
  induction s as [|c s IH]; cbn [includes]; rewrite orb_true_iff, prefix_startsWith.
  - split.
    + intros [(rest & E)|H]; [|discriminate]. exists EmptyString, rest. exact E.
    + intros (pre & post & E). left. destruct pre; [|discriminate].
      exists post. exact E.
  - rewrite IH. split.
    + intros [(rest & E)|(pre & post & E)].
      * exists EmptyString, rest. exact E.
      * exists (String c pre), post. cbn. rewrite E. reflexivity.
    + intros (pre & post & E). destruct pre as [|c' pre].
      * left. exists post. exact E.
      * right. cbn in E. inversion E. eauto.
Qed.

Lemma find_first {A} (p : A -> bool) before x after :
  p x = true -> (forall y, In y before -> p y = false) ->
  find p (before ++ x :: after) = Some x.
Proof.
  induction before as [|y before IH]; intros Hx Hb; cbn.
  - rewrite Hx. reflexivity.
  - rewrite (Hb y (or_introl eq_refl)). apply IH; [exact Hx|].
    intros z Hz. apply Hb. right. exact Hz.
Qed.

Lemma find_none {A} (p : A -> bool) l :
  (forall y, In y l -> p y = false) -> find p l = None.
Proof.
  induction l as [|y l IH]; intros H; cbn; [reflexivity|].
  rewrite (H y (or_introl eq_refl)). apply IH. intros z Hz. apply H. right. exact Hz.
Qed.

Lemma not_substring_includes key s : ~ substring key s -> includes s key = false.
Proof.
  intros N. destruct (includes s key) eqn:E; [|reflexivity].
  exfalso. apply N. apply includes_substring. exact E.
Qed.

(** X16: the table of root labels is read in its order.  The root label
    of a URL is the label of the first key of the table that is a substring
    of the URL, and it is [Unknown Bugzilla] when no key is. *)
Theorem rootLabel_first_key_wins url :
  (forall before key label after,
      BugzillaFilter.rootLabels = (before ++ (key, label) :: after)%list ->
      substring key url ->
      (forall k l, In (k, l) before -> ~ substring k url) ->
      BugzillaFilter._getRootLabel url = label) /\
  ((forall k l, In (k, l) BugzillaFilter.rootLabels -> ~ substring k url) ->
   BugzillaFilter._getRootLabel url = "Unknown Bugzilla").
Proof.
  unfold BugzillaFilter._getRootLabel. split.
  - intros before key label after E Hkey Hbefore. rewrite E.
    rewrite (find_first (fun kv => includes url (fst kv)) before (key, label) after).
    + reflexivity.
    + cbn. apply includes_substring. exact Hkey.
    + intros [k l] Hin. cbn. apply not_substring_includes. exact (Hbefore k l Hin).
  - intros Hnone. rewrite find_none; [reflexivity|].
    intros [k l] Hin. cbn. apply not_substring_includes. exact (Hnone k l Hin).
Qed.

(** For instance a URL at bugs.eclipse.org is an Eclipse bug whatever else
    it contains. *)
Corollary rootLabel_eclipse pre post :
  BugzillaFilter._getRootLabel (pre ++ "bugs.eclipse.org" ++ post) = "Eclipse Bugs".
Proof.
  unfold BugzillaFilter._getRootLabel, BugzillaFilter.rootLabels. cbn [find fst].
  replace (includes (pre ++ "bugs.eclipse.org" ++ post) "bugs.eclipse.org") with true;
    [reflexivity|].
  symmetry. apply includes_substring. exists pre, post. reflexivity.
Qed.

(** ** Reading the groups of a Bugzilla match *)

Lemma processMatch_ok header raw acct :
  exists r,
    BugzillaFilter._processMatch
      (searchFrom flags_mi
         (seq ([RBol; str header] ++ BugzillaFilter.encodedValue)%list) None raw) acct
      = (Ok r, acct, []) /\
    (r = None <->
     searchFrom flags_mi
       (seq ([RBol; str header] ++ BugzillaFilter.encodedValue)%list) None raw = None).
Proof.
  destruct (searchFrom flags_mi _ None raw) as [caps|] eqn:E.
  - destruct (bugzilla_value_defined header raw caps E) as (w & g1 & v & g3 & ->).
    destruct g1;
      [exists (Some (replaceAll "_" " " (trim v)))|exists (Some (trim v))];
      (split; [reflexivity|split; discriminate]).
  - exists None. split; [reflexivity|tauto].
Qed.

(** X17: [_processMatch] reads group 2 of its argument without a test.  On
    the match of the product pattern and of the component pattern in any
    raw content this read is safe: the call returns, changes nothing, and
    its result is null exactly when the pattern does not match. *)
Theorem processMatch_is_safe raw acct :
  (exists r,
      BugzillaFilter._processMatch (exec BugzillaFilter.reProduct raw) acct
        = (Ok r, acct, []) /\
      (r = None <-> exec BugzillaFilter.reProduct raw = None)) /\
  (exists r,
      BugzillaFilter._processMatch (exec BugzillaFilter.reComponent raw) acct
        = (Ok r, acct, []) /\
      (r = None <-> exec BugzillaFilter.reComponent raw = None)).
Proof.
  split.
  - exact (processMatch_ok "X-Bugzilla-Product: " raw acct).
  - exact (processMatch_ok "X-Bugzilla-Component: " raw acct).
Qed.

(** ** When a batch runs to its end *)

Section NeverThrows.

Lemma nt_ret {A} (a : A) : neverThrows (ret a).
Proof. intros acct H. split; [exists a; reflexivity|exact H]. Qed.

Lemma nt_emit e : neverThrows (emit e).
Proof. intros acct H. split; [exists tt; reflexivity|exact H]. Qed.

Lemma nt_bind {A B} (m : M A) (k : A -> M B) :
  neverThrows m -> (forall a, neverThrows (k a)) -> neverThrows (bind m k).
Proof.
  intros Hm Hk acct H. unfold bind. destruct (Hm acct H) as [(a & Ha) Hacc].
  destruct (m acct) as [[r a1] e1]. unfold outcome, account in *; cbn [fst snd] in *.
  subst r. destruct (Hk a a1 Hacc) as [(b & Hb) Hacc2].
  destruct (k a a1) as [[r2 a2] e2]. unfold outcome, account in *; cbn [fst snd] in *.
  split; [exists b; exact Hb|exact Hacc2].
Qed.

Lemma nt_mapM {A B} (g : A -> M B) l :
  (forall x, In x l -> neverThrows (g x)) -> neverThrows (mapM g l).
Proof.
  induction l as [|x l IH]; intros Hg; cbn [mapM]; [apply nt_ret|].
  apply nt_bind; [apply Hg; left; reflexivity|]. intros y.
  apply nt_bind; [apply IH; intros z Hz; apply Hg; right; exact Hz|].
  intros ys. apply nt_ret.
Qed.

Lemma nt_reduceM {A B} (g : B -> A -> M B) l :
  (forall b x, neverThrows (g b x)) -> forall acc, neverThrows (reduceM g l acc).
Proof.
  intros Hg. induction l as [|x l IH]; intros acc; cbn [reduceM]; [apply nt_ret|].
  apply nt_bind; [apply Hg|]. intros y. apply IH.
Qed.

Lemma nt_getOrCreateLabel labelStr : neverThrows (_getOrCreateLabel labelStr).
Proof.
  intros acct H.
  unfold _getOrCreateLabel, bind, getUserLabelByName, tryCatch, createLabel.
  destruct (existsb _ (userLabels acct)).
  - split; [eexists; reflexivity|exact H].
  - rewrite (H (userLabels acct) (sanitize labelStr)).
    split; [eexists; reflexivity|]. intros labels name. apply H.
Qed.

Lemma nt_hierarchy labelName : neverThrows (hierarchy labelName).
Proof.
  unfold hierarchy, _getOrCreateLabelHierarchy. apply nt_reduceM.
  intros [cl|] label; unfold hierarchyStep;
    (apply nt_bind; [apply nt_getOrCreateLabel|intros l; apply nt_ret]).
Qed.

Ltac nt_cases :=
  repeat match goal with
    | |- neverThrows (bind _ _) => apply nt_bind; [|intros ?]
    | |- neverThrows (hierarchy _) => apply nt_hierarchy
    | |- neverThrows (console_warn _) => apply nt_emit
    | |- neverThrows (console_error _) => apply nt_emit
    | |- neverThrows (console_info _) => apply nt_emit
    | |- neverThrows (emit _) => apply nt_emit
    | |- neverThrows (ret _) => apply nt_ret
    | |- neverThrows (match ?x with _ => _ end) => destruct x
    | |- neverThrows (if ?x then _ else _) => destruct x
    end.

Lemma nt_mailman m : neverThrows (MailmanFilter.findLabel m).
Proof. unfold MailmanFilter.findLabel. nt_cases. Qed.

Lemma nt_gitlab m : neverThrows (GitLabFilter.findLabel m).
Proof. unfold GitLabFilter.findLabel. nt_cases. Qed.

Lemma nt_github m : neverThrows (GitHubFilter.findLabel m).
Proof.
  unfold GitHubFilter.findLabel.
  destruct (exec GitHubFilter.reListId (getRawContent m)) as [caps|] eqn:E.
  - destruct (github_listId_defined _ _ E) as (whole & p & ->). nt_cases.
  - nt_cases.
Qed.

Lemma nt_bugzilla m :
  headerValue "X-Bugzilla-URL: " (getRawContent m) <> None ->
  neverThrows (BugzillaFilter.findLabel m).
Proof.
  unfold headerValue, BugzillaFilter.findLabel. rewrite exec_bugzilla_url.
  destruct (findLine flags_mi "X-Bugzilla-URL: " None (getRawContent m)) as [line|];
    [intros _|intros N; exfalso; apply N; reflexivity].
  cbn [option_map headerMatch nth].
  assert (PM : forall header,
             neverThrows
               (BugzillaFilter._processMatch
                  (searchFrom flags_mi
                     (seq ([RBol; str header] ++ BugzillaFilter.encodedValue)%list)
                     None (getRawContent m)))).
  { intros header acct H.
    destruct (processMatch_ok header (getRawContent m) acct) as (r & -> & _).
    split; [exists r; reflexivity|exact H]. }
  apply nt_bind; [apply (PM "X-Bugzilla-Product: ")|]. intros product.
  apply nt_bind; [apply (PM "X-Bugzilla-Component: ")|]. intros component.
  nt_cases.
Qed.

Lemma nt_processThread F thread :
  neverThrows (findLabels F thread) -> neverThrows (processThread F thread).
Proof. intros H. unfold processThread. nt_cases; try exact H. apply nt_mapM. intros; nt_cases. Qed.

Lemma nt_run F acct :
  accepting acct ->
  (forall thread, In thread (search acct (searchQuery F) 0 (searchMax F)) ->
                  neverThrows (findLabels F thread)) ->
  outcome (run F acct) = Ok tt.
Proof.
  intros H Hts. rewrite run_unfold. unfold runOn.
  assert (N : neverThrows
                (mapM (processThread F) (search acct (searchQuery F) 0 (searchMax F)))).
  { apply nt_mapM. intros t Ht. apply nt_processThread. apply Hts. exact Ht. }
  destruct (N acct H) as [(ys & Hys) _]. unfold bind.
  destruct (mapM _ _ acct) as [[r a] e]. cbn in Hys. subst r. reflexivity.
Qed.

End NeverThrows.

(** X18: on an account that refuses no label, a run of the GitHub, the
    GitLab or the mailing-list filter always comes to its end: no message
    whatsoever makes these filters throw. *)
Theorem run_completes_on_accepting_account n F acct :
  In F [GitHubFilter.filter n; GitLabFilter.filter n; MailmanFilter.filter n] ->
  accepting acct ->
  outcome (run F acct) = Ok tt.
Proof.
  intros HF H. apply nt_run; [exact H|]. intros thread _.
  cbn [In] in HF. destruct HF as [<-|[<-|[<-|[]]]]; cbn [findLabels];
    apply nt_mapM; intros m _;
    [apply nt_github|apply nt_gitlab|apply nt_mailman].
Qed.

Lemma run_completes_on_accepting_account_witness :
  outcome (run (GitHubFilter.filter 16) (Samples.account [MoreSamples.ghThread])) = Ok tt.
Proof.
  apply (run_completes_on_accepting_account 16 (GitHubFilter.filter 16)
           (Samples.account [MoreSamples.ghThread])).
  - cbn. auto.
  - intros labels name. reflexivity.
Defined.

(** X19: on an account that refuses no label, a run of the Bugzilla filter
    comes to its end when every message of every thread found has a line
    that starts with [X-Bugzilla-URL: ]. *)
Theorem bugzilla_run_completes n acct :
  accepting acct ->
  (forall thread m,
      In thread (search acct BugzillaFilter.query 0 n) ->
      In m (getMessages thread) ->
      headerValue "X-Bugzilla-URL: " (getRawContent m) <> None) ->
  outcome (run (BugzillaFilter.filter n) acct) = Ok tt.
Proof.
  intros H Hurl. apply nt_run; [exact H|]. intros thread Ht.
  cbn [findLabels BugzillaFilter.filter]. apply nt_mapM. intros m Hm.
  apply nt_bugzilla. exact (Hurl thread m Ht Hm).
Qed.

Lemma bugzilla_run_completes_witness :
  outcome (run (BugzillaFilter.filter 16)
             (Samples.account [Samples.thread "t2" [Samples.bugComplete]])) = Ok tt.
Proof.
  apply (bugzilla_run_completes 16
           (Samples.account [Samples.thread "t2" [Samples.bugComplete]])).
  - intros labels name. reflexivity.
  - intros thread m [<-|[]] [<-|[]]. vm_compute. discriminate.
Defined.

(** ** A GitHub message without a List-ID line *)

Lemma github_listId_needs_header raw caps :
  exec GitHubFilter.reListId raw = Some caps -> hasHeader raw "List-ID: ".
Proof.
  unfold exec. intros H.
  destruct (searchFrom_sound _ _ _ _ _ H) as (pre & s1 & s2 & c1 & -> & M & ->).
  cbn [GitHubFilter.reListId source reFlags seq] in M.
  invert_matches.
  match goal with
  | H1 : sameText _ "List-ID: " ?hdr = true |- _ =>
      exists pre, hdr; eexists; repeat split; [|eassumption..]
  end.
  normalize_appends. reflexivity.
Qed.

(** X20: a GitHub message in which no line starts with [List-ID: ] (in
    any case) yields null: the only event is the warning that names the
    message, and the account is untouched. *)
Theorem github_missing_listId m acct :
  findLine flags_mi "List-ID: " None (getRawContent m) = None ->
  GitHubFilter.findLabel m acct =
    (Ok None, acct,
     [Console LogWarn
        [("Cannot find List-ID from message " ++ quoted (getSubject m)
            ++ " on " ++ getDate m)%string]]).
Proof.
  intros H. unfold GitHubFilter.findLabel.
  destruct (exec GitHubFilter.reListId (getRawContent m)) as [caps|] eqn:E;
    [|reflexivity].
  exfalso. apply github_listId_needs_header in E.
  apply findLine_hasHeader in E. congruence.
Qed.

Lemma github_missing_listId_witness :
  GitHubFilter.findLabel Samples.ghMentionNoList (Samples.account []) =
    (Ok None, Samples.account [],
     [Console LogWarn
        [("Cannot find List-ID from message " ++ quoted (getSubject Samples.ghMentionNoList)
            ++ " on " ++ getDate Samples.ghMentionNoList)%string]]).
Proof.
  apply (github_missing_listId Samples.ghMentionNoList (Samples.account [])).
  vm_compute. reflexivity.
Defined.
